(** * Verification of the Java context builder ([context.py])

    A shallow embedding of the heuristic relationship resolver of
    [context.py] and the proofs of its specified properties.

    Modelling conventions.
    - A Python [str] is a [string]; a character is its code point, so the
      development covers text in the Latin-1 range (code points 0..255).
    - The compiled patterns of the [re] module are values of [Re.regex] and
      are run by a backtracking matcher with the priorities of [re]
      (leftmost start, greedy and lazy repetition, ordered alternation).
    - The file system is read through [os.path.exists], [os.path.isdir],
      [os.walk] and [open(...).read()]; these four are the fields of the
      record [FS], and the file system is taken not to change during a run.
      Where a claim turns on a read or a call that fails in the middle of
      a traversal, [rrd_io] gives the loop a read of its own and a bound
      on the nested calls that the interpreter admits.
    - [list(set(xs))] yields the distinct elements of [xs] in an order that
      the program does not control; the order is a field of [SetOrder]. *)

From Stdlib Require Import ZArith Ascii String List Lia Permutation DecimalString.
From stdpp Require Import base decidable option list gmap strings.

Local Open Scope string_scope.
Local Open Scope Z_scope.
Local Open Scope list_scope.

(** [simpl] may unfold the append of a string that starts with a known
    character. *)
Local Arguments String.append !s1 s2 / : simpl nomatch.

(** ** Python string primitives *)

Module Str.

(** [len(s)] *)
Definition len (s : string) : nat := String.length s.

(** [s[n:]] for [0 <= n] *)
Fixpoint drop (n : nat) (s : string) : string :=
  match n, s with
  | O, _ => s
  | S _, EmptyString => EmptyString
  | S n', String _ s' => drop n' s'
  end.

(** [s[:n]] for [0 <= n] *)
Fixpoint take (n : nat) (s : string) : string :=
  match n, s with
  | O, _ => EmptyString
  | S _, EmptyString => EmptyString
  | S n', String c s' => String c (take n' s')
  end.

(** [s[i:j]] for [0 <= i], [0 <= j] *)
Definition slice (i j : nat) (s : string) : string :=
  drop i (take j s).

(** [s.startswith(p)] *)
Fixpoint startswith (p s : string) : bool :=
  match p, s with
  | EmptyString, _ => true
  | String a p', String b s' => Ascii.eqb a b && startswith p' s'
  | String _ _, EmptyString => false
  end.

(** [s.endswith(p)] *)
Definition endswith (p s : string) : bool :=
  (len p <=? len s)%nat && String.eqb (drop (len s - len p) s) p.

(** [p in s] *)
Fixpoint contains (p s : string) : bool :=
  startswith p s ||
  match s with
  | EmptyString => false
  | String _ s' => contains p s'
  end.

(** [s.replace(a, b)] for one-character [a] and [b] *)
Fixpoint replace_char (a b : ascii) (s : string) : string :=
  match s with
  | EmptyString => EmptyString
  | String c s' =>
      String (if Ascii.eqb c a then b else c) (replace_char a b s')
  end.

(** [s.split(sep)] for a one-character [sep]: never empty. *)
Fixpoint split_char (sep : ascii) (s : string) : list string :=
  match s with
  | EmptyString => [EmptyString]
  | String c s' =>
      if Ascii.eqb c sep then EmptyString :: split_char sep s'
      else match split_char sep s' with
           | [] => [String c EmptyString]
           | w :: ws => String c w :: ws
           end
  end.

(** [sep.join(parts)] *)
Fixpoint join (sep : string) (parts : list string) : string :=
  match parts with
  | [] => EmptyString
  | [w] => w
  | w :: ws => w +:+ sep +:+ join sep ws
  end.

(** [bool(s)]: a string is true when it is not empty. *)
Definition truthy (s : string) : bool :=
  match s with EmptyString => false | _ => true end.

End Str.

(** ** Character classes of [re] on [str] patterns *)

Module Cls.

Definition code (c : ascii) : N := N_of_ascii c.

Definition between (lo hi : N) (c : ascii) : bool :=
  ((lo <=? code c) && (code c <=? hi))%N.

Definition one (a c : ascii) : bool := Ascii.eqb a c.

(** [\s]: the characters for which [str.isspace] holds. *)
Definition space (c : ascii) : bool :=
  between 9 13 c || between 28 32 c || (code c =? 133)%N || (code c =? 160)%N.

Definition digit (c : ascii) : bool := between 48 57 c.
Definition upper (c : ascii) : bool := between 65 90 c.
Definition lower (c : ascii) : bool := between 97 122 c.

(** [[A-Za-z_]] *)
Definition ident_start (c : ascii) : bool :=
  upper c || lower c || one "_" c.

(** [[A-Za-z0-9_]] *)
Definition ident_char (c : ascii) : bool := ident_start c || digit c.

(** [\w]: [_] and the characters for which [str.isalnum] holds. *)
Definition word (c : ascii) : bool :=
  ident_char c
  || (code c =? 170)%N || (code c =? 178)%N || (code c =? 179)%N
  || (code c =? 181)%N || (code c =? 185)%N || (code c =? 186)%N
  || between 188 190 c || between 192 214 c || between 216 246 c
  || between 248 255 c.

(** A letter under [re.IGNORECASE]; [a] is given in lower case. *)
Definition nocase (a c : ascii) : bool :=
  one a c || (lower a && (code c + 32 =? code a)%N).

End Cls.

(** ** A backtracking matcher with the priorities of [re] *)

Module Re.

Inductive regex : Type :=
| Eps
| Chr (p : ascii -> bool)
| Seq (r1 r2 : regex)
| Alt (r1 r2 : regex)
| Star (greedy : bool) (r : regex)
| Grp (n : nat) (r : regex)
| Bol
| Eol (multiline : bool)
| Wb.

(** [r?], [r+], a literal string, [r1 r2 ... rn] and [r1|...|rn]. *)
Definition Opt (r : regex) : regex := Alt r Eps.
Definition Plus (r : regex) : regex := Seq r (Star true r).

Fixpoint Lit (s : string) : regex :=
  match s with
  | EmptyString => Eps
  | String c s' => Seq (Chr (Cls.one c)) (Lit s')
  end.

Fixpoint Cat (rs : list regex) : regex :=
  match rs with
  | [] => Eps
  | [r] => r
  | r :: rs' => Seq r (Cat rs')
  end.

Fixpoint Any (rs : list regex) : regex :=
  match rs with
  | [] => Chr (fun _ => false)
  | [r] => r
  | r :: rs' => Alt r (Any rs')
  end.

(** The position of the matcher in the subject: the character before
    it (for [^] and [\b]), its index and the text still ahead. *)
Record cursor : Type := Cursor {
  prev : option ascii;
  pos : nat;
  rest : string
}.

Definition caps : Type := list (nat * (nat * nat)).

Definition word_before (c : cursor) : bool :=
  match prev c with Some a => Cls.word a | None => false end.

Definition word_after (c : cursor) : bool :=
  match rest c with String a _ => Cls.word a | EmptyString => false end.

Definition at_bol (c : cursor) : bool :=
  match prev c with
  | None => true
  | Some a => Cls.one "010" a
  end.

Definition at_eol (multiline : bool) (c : cursor) : bool :=
  match rest c with
  | EmptyString => true
  | String a EmptyString => Cls.one "010" a
  | String a _ => multiline && Cls.one "010" a
  end.

Definition step (a : ascii) (s : string) (c : cursor) : cursor :=
  Cursor (Some a) (S (pos c)) s.

(** [run r c g k] matches [r] at [c] and hands every way of matching,
    in the order [re] tries them, to the continuation [k]; the first
    success wins. *)
Fixpoint run {R : Type} (r : regex) (c : cursor) (g : caps)
    (k : cursor -> caps -> option R) {struct r} : option R :=
  match r with
  | Eps => k c g
  | Chr p =>
      match rest c with
      | String a s => if p a then k (step a s c) g else None
      | EmptyString => None
      end
  | Seq r1 r2 => run r1 c g (fun c' g' => run r2 c' g' k)
  | Alt r1 r2 =>
      match run r1 c g k with
      | Some x => Some x
      | None => run r2 c g k
      end
  | Star greedy r1 =>
      (fix iter (fuel : nat) (c : cursor) (g : caps) {struct fuel}
         : option R :=
         match fuel with
         | O => k c g
         | S fuel' =>
             if greedy then
               match run r1 c g (fun c' g' =>
                       if (pos c' =? pos c)%nat then None
                       else iter fuel' c' g') with
               | Some x => Some x
               | None => k c g
               end
             else
               match k c g with
               | Some x => Some x
               | None =>
                   run r1 c g (fun c' g' =>
                     if (pos c' =? pos c)%nat then None
                     else iter fuel' c' g')
               end
         end) (Str.len (rest c)) c g
  | Grp n r1 => run r1 c g (fun c' g' => k c' ((n, (pos c, pos c')) :: g'))
  | Bol => if at_bol c then k c g else None
  | Eol m => if at_eol m c then k c g else None
  | Wb => if xorb (word_before c) (word_after c) then k c g else None
  end.

(** A match object: [m.start()], [m.end()] and the spans of its groups. *)
Record rmatch : Type := Match {
  m_start : nat;
  m_end : nat;
  m_caps : caps
}.

Definition match_at (r : regex) (c : cursor) : option rmatch :=
  run r c [] (fun c' g => Some (Match (pos c) (pos c') g)).

(** [r.search(text)] from a cursor: the leftmost start that matches. *)
Fixpoint search_at (r : regex) (p : option ascii) (i : nat) (s : string)
    {struct s} : option rmatch :=
  match match_at r (Cursor p i s) with
  | Some m => Some m
  | None =>
      match s with
      | EmptyString => None
      | String a s' => search_at r (Some a) (S i) s'
      end
  end.

Definition search (r : regex) (text : string) : option rmatch :=
  search_at r None O text.

Fixpoint span_of (n : nat) (g : caps) : option (nat * nat) :=
  match g with
  | [] => None
  | (n', sp) :: g' => if (n' =? n)%nat then Some sp else span_of n g'
  end.

(** [m.group(n)] for a group that took part in the match. *)
Definition group (text : string) (m : rmatch) (n : nat) : string :=
  match span_of n (m_caps m) with
  | Some (i, j) => Str.slice i j text
  | None => EmptyString
  end.

(** The cursor of [text] at index [i]. *)
Fixpoint cursor_at (p : option ascii) (i : nat) (n : nat) (s : string)
    : cursor :=
  match n, s with
  | S n', String a s' => cursor_at (Some a) (S i) n' s'
  | _, _ => Cursor p i s
  end.

(** The successive non-overlapping matches of [r.findall] and
    [r.split]; after an empty match the scan moves on by one. *)
Fixpoint matches_from (fuel : nat) (r : regex) (c : cursor)
    : list rmatch :=
  match fuel with
  | O => []
  | S fuel' =>
      match search_at r (prev c) (pos c) (rest c) with
      | None => []
      | Some m =>
          let skip := (if (m_end m =? pos c)%nat then 1 else m_end m - pos c)%nat in
          m :: matches_from fuel' r
                 (cursor_at (prev c) (pos c) skip (rest c))
      end
  end.

Definition matches (r : regex) (text : string) : list rmatch :=
  matches_from (S (Str.len text)) r (Cursor None O text).

(** [r.findall(text)] for a pattern with one group. *)
Definition findall1 (r : regex) (text : string) : list string :=
  map (fun m => group text m 1) (matches r text).

End Re.

(** ** The compiled patterns of [context.py] *)

Import Re.

Definition ws_star : regex := Star true (Chr Cls.space).
Definition ws_plus : regex := Plus (Chr Cls.space).

(** [[\s\S]*?]: any characters, as few as possible. *)
Definition lazy_any : regex := Star false (Chr (fun _ => true)).

(** [[A-Za-z_][A-Za-z0-9_]*] *)
Definition identifier : regex :=
  Seq (Chr Cls.ident_start) (Star true (Chr Cls.ident_char)).

(** [^\s*import\s+([a-zA-Z0-9_.*]+)\s*;\s*$] with [re.MULTILINE] *)
Definition IMPORT_RE : regex :=
  Cat [Bol; ws_star; Lit "import"; ws_plus;
       Grp 1 (Plus (Chr (fun c => Cls.ident_char c || Cls.one "." c || Cls.one "*" c)));
       ws_star; Lit ";"; ws_star; Eol true].

(** [^\s*package\s+([\w.]+)\s*;] with [re.MULTILINE] *)
Definition PACKAGE_RE : regex :=
  Cat [Bol; ws_star; Lit "package"; ws_plus;
       Grp 1 (Plus (Chr (fun c => Cls.word c || Cls.one "." c)));
       ws_star; Lit ";"].

(** [TYPE_RE]: any number of annotations (an at-sign, [\w+], an optional
    parenthesised argument without closing parenthesis inside, then
    [\s*]), an optional visibility keyword, [\s*], an optional modifier
    among abstract, final and static, [\s*], the keyword (group 1), [\s+]
    and the name (group 2). *)
Definition TYPE_RE : regex :=
  Cat [Star true
         (Cat [Lit "@"; Plus (Chr Cls.word);
               Opt (Cat [Lit "(";
                         Star true (Chr (fun c => negb (Cls.one ")" c)));
                         Lit ")"]);
               ws_star]);
       Opt (Any [Lit "public"; Lit "protected"; Lit "private"]);
       ws_star;
       Opt (Any [Lit "abstract"; Lit "final"; Lit "static"]);
       ws_star;
       Grp 1 (Any [Lit "class"; Lit "interface"; Lit "enum"; Lit "record"]);
       ws_plus;
       Grp 2 identifier].

(** [(?i)test\.java$], the test-file filter of the reverse search. *)
Definition TEST_RE : regex :=
  Cat [Chr (Cls.nocase "t"); Chr (Cls.nocase "e"); Chr (Cls.nocase "s");
       Chr (Cls.nocase "t"); Lit "."; Chr (Cls.nocase "j");
       Chr (Cls.nocase "a"); Chr (Cls.nocase "v"); Chr (Cls.nocase "a");
       Eol false].

(** ** The file system *)

(** [os.path.join(a, b)] of [posixpath]. *)
Definition os_path_join (a b : string) : string :=
  if Str.startswith "/" b then b
  else if negb (Str.truthy a) || Str.endswith "/" a then a +:+ b
  else a +:+ "/" +:+ b.

(** What the program asks of the file system.  [read p] is
    [open(p, "r", encoding="utf-8", errors="ignore").read()], with [None]
    when it raises; [walk top] is the list of triples
    [(root, dirs, files)] that [os.walk(top)] yields. *)
Record FS : Type := {
  exists_ : string -> bool;
  isdir : string -> bool;
  walk : string -> list (string * list string * list string);
  read : string -> option string
}.

(** The order in which [list(set(xs))] lists the distinct elements of
    [xs]. *)
Record SetOrder : Type := {
  list_set :> list string -> list string;
  list_set_nodup : forall l, NoDup (list_set l);
  list_set_elem : forall l x, x ∈ list_set l <-> x ∈ l
}.

(** ** Import resolution and type extraction *)

Definition java_package_to_path (package_name : string) : string :=
  Str.replace_char "." "/" package_name.

(** The first component of [extract_imports_and_used]; the second, the
    set of identifiers, is only counted in a progress message. *)
Definition extract_imports (code : string) : list string :=
  findall1 IMPORT_RE code.

Definition resolve_import (fs : FS) (import_name repo_path : string)
    : list string :=
  let base_src := os_path_join repo_path "src/main/java" in
  if Str.endswith ".*" import_name then
    let pkg_path :=
      java_package_to_path (Str.take (Str.len import_name - 2) import_name) in
    let full_dir := os_path_join base_src pkg_path in
    if isdir fs full_dir then
      flat_map (fun '(root, _, files) =>
                  map (os_path_join root)
                      (filter (fun f => Is_true (Str.endswith ".java" f)) files))
               (walk fs full_dir)
    else []
  else
    let file_path :=
      os_path_join base_src (java_package_to_path import_name +:+ ".java") in
    if exists_ fs file_path then [file_path] else [].

(** The loop of [extract_full_type]: [s] is [code[i:]] and [depth] the
    counter; when the text ends the whole [code] is returned. *)
Fixpoint scan_braces (code : string) (start i : nat) (depth : Z)
    (s : string) : string :=
  match s with
  | EmptyString => code
  | String c s' =>
      if Cls.one "{" c then scan_braces code start (S i) (depth + 1) s'
      else if Cls.one "}" c then
        if depth - 1 =? 0 then Str.slice start (S i) code
        else scan_braces code start (S i) (depth - 1) s'
      else scan_braces code start (S i) depth s'
  end.

Definition extract_full_type (code : string) : string :=
  match search TYPE_RE code with
  | None => code
  | Some m =>
      scan_braces code (m_start m) (m_end m) 0 (Str.drop (m_end m) code)
  end.

(** ** Reverse-dependency search *)

(** [\b(implements|extends)\b[\s\S]*?\b<base>\b], the same-package test. *)
Definition subtype_re (base_name : string) : regex :=
  Cat [Wb; Grp 1 (Alt (Lit "implements") (Lit "extends")); Wb;
       lazy_any; Wb; Lit base_name; Wb].

(** A double or a single quote. *)
Definition quote (c : ascii) : bool := Cls.one "034" c || Cls.one "039" c.

(** The ten alternatives of [combined_re], in the order of the source;
    [re.escape] makes the interpolated names literal. *)
Definition reference_patterns (target_fqn base_name : string) : list regex :=
  [ Cat [Lit "import"; ws_plus; Lit target_fqn; ws_star; Lit ";"];
    Cat [Wb; Lit "implements"; Wb; lazy_any; Wb; Lit base_name; Wb];
    Cat [Wb; Lit "extends"; Wb; lazy_any; Wb; Lit base_name; Wb];
    Cat [Lit "new"; ws_plus; Lit base_name; ws_star; Lit "("];
    Cat [Lit "@Autowired"; lazy_any; Wb; Lit base_name; Wb];
    Cat [Lit "@Inject"; lazy_any; Wb; Lit base_name; Wb];
    Cat [Lit "@Qualifier"; ws_star; Lit "("; ws_star; Chr quote;
         Lit base_name; Chr quote; ws_star; Lit ")"];
    Cat [Lit "<"; ws_star; Lit base_name; ws_star; Lit ">"];
    Cat [Wb; Lit base_name; ws_plus; identifier; Wb];
    Cat [Wb; Lit base_name; ws_star; Lit "."] ].

Definition combined_re (target_fqn base_name : string) : regex :=
  Any (reference_patterns target_fqn base_name).

(** [target_fqn.split(".")[-1]] and [".".join(target_fqn.split(".")[:-1])] *)
Definition base_name_of (target_fqn : string) : string :=
  List.last (Str.split_char "." target_fqn) EmptyString.

Definition package_name_of (target_fqn : string) : string :=
  Str.join "." (List.removelast (Str.split_char "." target_fqn)).

(** The body of the inner loop of [find_reverse_dependencies] for the file
    [f] of directory [root]: [Some path] when the path is appended to the
    results, [None] when the file is passed over (other suffix, test file,
    a read that raises, or no pattern matching). *)
Definition reverse_candidate (fs : FS) (target_fqn : string)
    (include_tests : bool) (root f : string) : option string :=
  let base_name := base_name_of target_fqn in
  let package_name := package_name_of target_fqn in
  if negb (Str.endswith ".java" f) then None
  else if negb include_tests && bool_decide (is_Some (search TEST_RE f)) then None
  else
    let path := os_path_join root f in
    match read fs path with
    | None => None
    | Some text =>
        let file_pkg := (fun m => group text m 1) <$> search PACKAGE_RE text in
        if bool_decide (file_pkg = Some package_name)
           && bool_decide (is_Some (search (subtype_re base_name) text))
        then Some path
        else if bool_decide (is_Some (search (combined_re target_fqn base_name) text))
        then Some path
        else None
    end.

(** The list [results] of [find_reverse_dependencies] before it is turned
    into a set. *)
Definition reverse_matches (fs : FS) (repo_path target_fqn : string)
    (include_tests : bool) : list string :=
  flat_map (fun '(root, _, files) =>
              omap (reverse_candidate fs target_fqn include_tests root) files)
           (walk fs repo_path).

Definition find_reverse_dependencies (fs : FS) (order : SetOrder)
    (repo_path target_fqn : string) (include_tests : bool) : list string :=
  order (reverse_matches fs repo_path target_fqn include_tests).

(** ** Bean, configuration and inheritance detection *)

(** [@Qualifier\(["']<name>["']\)]; the name is a Java identifier taken
    from group 2 of [TYPE_RE], so it stands for itself in the pattern.
    The source does not escape the name: for a name that is not an
    identifier ([identifier_name]) this pattern is not the one the
    source compiles. *)
Definition qualifier_re (target_class_name : string) : regex :=
  Cat [Lit "@Qualifier("; Chr quote; Lit target_class_name; Chr quote; Lit ")"].

Definition bean_candidate (fs : FS) (target_class_name root f : string)
    : option string :=
  if negb (Str.endswith ".java" f) then None
  else
    let path := os_path_join root f in
    match read fs path with
    | None => None
    | Some text =>
        if (Str.contains "@Configuration" text
            && Str.contains ("new " +:+ target_class_name) text)
           || (Str.contains "@Bean" text && Str.contains target_class_name text)
           || bool_decide (is_Some (search (qualifier_re target_class_name) text))
        then Some path else None
    end.

Definition find_bean_configurations (fs : FS)
    (repo_path target_class_name : string) : list string :=
  flat_map (fun '(root, _, files) =>
              omap (bean_candidate fs target_class_name root) files)
           (walk fs repo_path).

(** [(?:extends|implements)\s+([A-Za-z0-9_.,\s<>]+)] *)
Definition INHERIT_RE : regex :=
  Cat [Alt (Lit "extends") (Lit "implements"); ws_plus;
       Grp 1 (Plus (Chr (fun c =>
         Cls.ident_char c || Cls.one "." c || Cls.one "," c || Cls.space c
         || Cls.one "<" c || Cls.one ">" c)))].

(** [[,\s]+] *)
Definition SEP_RE : regex :=
  Plus (Chr (fun c => Cls.one "," c || Cls.space c)).

(** [s.strip()] *)
Fixpoint lstrip (s : string) : string :=
  match s with
  | String c s' => if Cls.space c then lstrip s' else s
  | EmptyString => EmptyString
  end.

Fixpoint rstrip (s : string) : string :=
  match s with
  | String c s' =>
      match rstrip s' with
      | EmptyString => if Cls.space c then EmptyString else String c EmptyString
      | t => String c t
      end
  | EmptyString => EmptyString
  end.

Definition strip (s : string) : string := rstrip (lstrip s).

(** [r.split(text)] for a pattern without groups. *)
Fixpoint split_by (ms : list rmatch) (from : nat) (text : string)
    : list string :=
  match ms with
  | [] => [Str.slice from (Str.len text) text]
  | m :: ms' => Str.slice from (m_start m) text :: split_by ms' (m_end m) text
  end.

Definition re_split (r : regex) (text : string) : list string :=
  split_by (matches r text) O text.

Definition find_inheritance_dependencies (fs : FS) (code repo_path : string)
    : list string :=
  flat_map (fun m =>
              flat_map (fun part =>
                          if Str.truthy part then resolve_import fs part repo_path
                          else [])
                       (re_split SEP_RE (strip m)))
           (findall1 INHERIT_RE code).

(** ** Recursive reverse-dependency traversal *)

(** [xs[:n]] for a Python integer [n]: a negative [n] counts from the end. *)
Definition slice_to {A : Type} (xs : list A) (n : Z) : list A :=
  if 0 <=? n then take (Z.to_nat n) xs
  else take (length xs - Z.to_nat (- n)) xs.

(** [if limit: files = files[:limit]]: [None] and [0] are both false. *)
Definition apply_limit {A : Type} (limit : option Z) (files : list A)
    : list A :=
  match limit with
  | Some n => if n =? 0 then files else slice_to files n
  | None => files
  end.

(** The state threaded through one traversal.  [visited] is the set of
    the code.  [expanded] is a ghost history, absent from the code: the
    pairs [(target_fqn, current_depth)] whose reverse dependencies were
    searched, in the order of the searches. *)
Record trav : Type := Trav {
  visited : gset (string * Z);
  expanded : list (string * Z)
}.

Definition fresh : trav := Trav ∅ [].

Definition mark (p : string * Z) (st : trav) : trav :=
  Trav ({[ p ]} ∪ visited st) (expanded st ++ [p]).

(** [fqn] of a candidate file as the loop body computes it: the read may
    raise and either declaration may be absent. *)
Definition fqn_of_code (code : string) : option string :=
  match search PACKAGE_RE code, search TYPE_RE code with
  | Some pkg, Some cls => Some (group code pkg 1 +:+ "." +:+ group code cls 2)
  | _, _ => None
  end.

Definition fqn_of_file (fs : FS) (f : string) : option string :=
  read fs f ≫= fqn_of_code.

Section Traversal.

Variable fs : FS.
Variable order : SetOrder.
Variable repo_path : string.
Variable include_tests : bool.
Variable limit : option Z.

(** The loop [for f in files] of [recursive_reverse_dependencies];
    [call] is the recursive call at [depth - 1], and [None] stands for
    a call that did not return. *)
Fixpoint expand_files
    (call : string -> trav -> option (list string * trav))
    (files results : list string) (st : trav)
    : option (list string * trav) :=
  match files with
  | [] => Some (results, st)
  | f :: files' =>
      let results := results ++ [f] in
      match fqn_of_file fs f with
      | None => expand_files call files' results st
      | Some fqn =>
          match call fqn st with
          | None => None
          | Some (sub_results, st') =>
              expand_files call files' (results ++ sub_results) st'
          end
      end
  end.

(** [recursive_reverse_dependencies] with the call stack bounded by
    [fuel]: [None] when [fuel] nested calls were not enough. *)
Fixpoint rrd (fuel : nat) (target_fqn : string) (depth : Z) (st : trav)
    (current_depth : Z) {struct fuel} : option (list string * trav) :=
  match fuel with
  | O => None
  | S fuel' =>
      if depth <=? 0 then Some ([], st)
      else if bool_decide ((target_fqn, current_depth) ∈ visited st)
      then Some ([], st)
      else
        let st := mark (target_fqn, current_depth) st in
        let files :=
          apply_limit limit
            (find_reverse_dependencies fs order repo_path target_fqn
               include_tests) in
        match
          expand_files
            (fun fqn st' => rrd fuel' fqn (depth - 1) st' (current_depth + 1))
            files [] st
        with
        | None => None
        | Some (results, st') => Some (order results, st')
        end
  end.

(** The outermost call: [visited=None], [current_depth=1]. *)
Definition traverse (target_fqn : string) (depth : Z)
    : option (list string * trav) :=
  rrd (S (Z.to_nat depth)) target_fqn depth fresh 1.

Definition recursive_reverse_dependencies (target_fqn : string)
    (depth : Z) : list string :=
  match traverse target_fqn depth with
  | Some (results, _) => results
  | None => []
  end.

End Traversal.

(** ** Context assembly *)

Inductive kind : Type :=
| IMPORT (imp : string)
| EXTENDS_IMPLEMENTS
| REVERSE_DEPENDENCY
| BEAN_CONFIGURATION.

Record chunk : Type := Chunk {
  chunk_kind : kind;
  chunk_path : string;
  chunk_text : string
}.

Definition nl : string := String "010" EmptyString.

Definition label (k : kind) : string :=
  match k with
  | IMPORT imp => "=== IMPORT " +:+ imp +:+ " ==="
  | EXTENDS_IMPLEMENTS => "=== EXTENDS / IMPLEMENTS ==="
  | REVERSE_DEPENDENCY => "=== REVERSE DEPENDENCY ==="
  | BEAN_CONFIGURATION => "=== BEAN / CONFIGURATION ==="
  end.

(** The text appended to [output_chunks] for one chunk. *)
Definition render (c : chunk) : string :=
  label (chunk_kind c) +:+ nl +:+ "# " +:+ chunk_path c +:+ nl +:+ nl
  +:+ chunk_text c +:+ nl +:+ nl.

Record bundle : Type := Bundle {
  seen_files : gset string;
  output_chunks : list chunk
}.

Definition empty_bundle : bundle := Bundle ∅ [].

Section Assembly.

Variable fs : FS.
Variable order : SetOrder.
Variable repo_path : string.
Variable depth : Z.
Variable include_tests : bool.
Variable reverse_limit : option Z.

(** One guarded emission: a path already in [seen_files] is passed
    over; otherwise it is added, the file is read and a chunk appended
    ([body] picks what is kept of the text).  [None]: the read raised,
    which ends the run. *)
Definition emit (k : kind) (body : string -> string) (path : string)
    (b : bundle) : option bundle :=
  if bool_decide (path ∈ seen_files b) then Some b
  else
    match read fs path with
    | None => None
    | Some src =>
        Some (Bundle ({[ path ]} ∪ seen_files b)
                     (output_chunks b ++ [Chunk k path (body src)]))
    end.

Fixpoint emit_all (k : kind) (body : string -> string)
    (paths : list string) (b : bundle) : option bundle :=
  match paths with
  | [] => Some b
  | p :: paths' => emit k body p b ≫= emit_all k body paths'
  end.

(** Level 1: the files of every import, as extracted type bodies. *)
Fixpoint emit_imports (imports : list string) (b : bundle)
    : option bundle :=
  match imports with
  | [] => Some b
  | imp :: imports' =>
      emit_all (IMPORT imp) extract_full_type
               (resolve_import fs imp repo_path) b
      ≫= emit_imports imports'
  end.

(** The body of the loop over [target_files]. *)
Definition process_target (target_file_path : string) (b : bundle)
    : option bundle :=
  let target_full_path := os_path_join repo_path target_file_path in
  if negb (exists_ fs target_full_path) then Some b
  else
    code ← read fs target_full_path;
    let imports := extract_imports code in
    let current_pkg := (fun m => group code m 1) <$> search PACKAGE_RE code in
    let current_class := (fun m => group code m 2) <$> search TYPE_RE code in
    let current_fqn :=
      match current_pkg, current_class with
      | Some pkg, Some cls =>
          if Str.truthy pkg && Str.truthy cls
          then Some (pkg +:+ "." +:+ cls) else None
      | _, _ => None
      end in
    b ← emit_imports imports b;
    b ← emit_all EXTENDS_IMPLEMENTS id
           (find_inheritance_dependencies fs code repo_path) b;
    b ← match current_fqn with
        | Some fqn =>
            if Str.truthy fqn then
              emit_all REVERSE_DEPENDENCY id
                (recursive_reverse_dependencies fs order repo_path
                   include_tests reverse_limit fqn depth) b
            else Some b
        | None => Some b
        end;
    match current_class with
    | Some cls =>
        if Str.truthy cls then
          emit_all BEAN_CONFIGURATION id
            (find_bean_configurations fs repo_path cls) b
        else Some b
    | None => Some b
    end.

Fixpoint process_targets (target_files : list string) (b : bundle)
    : option bundle :=
  match target_files with
  | [] => Some b
  | t :: ts => process_target t b ≫= process_targets ts
  end.

(** [prepare_context_multi] up to the point where the chunks are
    joined: the bundle built from [target_files], or [None] when a
    read outside the guarded searches raised. *)
Definition prepare_context_multi (target_files : list string)
    : option bundle :=
  process_targets target_files empty_bundle.

End Assembly.

(** ** A concrete file system: a directory tree *)

Local Unset Elimination Schemes.
Inductive node : Type :=
| File (content : option string)
| Dir (entries : list (string * node)).
Local Set Elimination Schemes.

Definition is_dir (n : node) : bool :=
  match n with Dir _ => true | File _ => false end.

Definition names (want_dirs : bool) (es : list (string * node)) : list string :=
  map fst (filter (fun e => Is_true (Bool.eqb (is_dir (snd e)) want_dirs)) es).

(** The triples of [os.walk(top)], top-down. *)
Fixpoint walk_node (top : string) (n : node)
    : list (string * list string * list string) :=
  match n with
  | File _ => []
  | Dir es =>
      (top, names true es, names false es)
      :: (fix below (es : list (string * node)) :=
            match es with
            | [] => []
            | (name, d) :: es' => walk_node (os_path_join top name) d ++ below es'
            end) es
  end.

Fixpoint assoc (name : string) (es : list (string * node)) : option node :=
  match es with
  | [] => None
  | (n, d) :: es' => if String.eqb n name then Some d else assoc name es'
  end.

Fixpoint find_node (comps : list string) (n : node) : option node :=
  match comps with
  | [] => Some n
  | c :: cs =>
      match n with
      | Dir es => assoc c es ≫= find_node cs
      | File _ => None
      end
  end.

(** The components of a path; empty components and [.] are dropped. *)
Definition components (path : string) : list string :=
  filter (fun c => Is_true (Str.truthy c && negb (String.eqb c ".")))
         (Str.split_char "/" path).

Definition node_at (root : node) (path : string) : option node :=
  find_node (components path) root.

(** A leaf [File None] is a file whose read raises. *)
Definition tree_fs (root : node) : FS :=
  {| exists_ p := bool_decide (is_Some (node_at root p));
     isdir p := match node_at root p with Some (Dir _) => true | _ => false end;
     walk p := match node_at root p with Some d => walk_node p d | None => [] end;
     read p := match node_at root p with Some (File c) => c | _ => None end |}.

(** An order for [list(set(xs))]: the distinct elements as [remove_dups]
    lists them. *)
Definition dedup_order : SetOrder :=
  {| list_set := remove_dups;
     list_set_nodup := NoDup_remove_dups;
     list_set_elem := fun l x => elem_of_remove_dups l x |}.

Definition java (pkg body : string) : node :=
  File (Some ("package " +:+ pkg +:+ ";" +:+ nl +:+ body +:+ nl)).

Definition chain_repo : node :=
  Dir [("repo", Dir [("src", Dir [("main", Dir [("java", Dir [("p", Dir [
    ("A.java", java "p" "public class A { }");
    ("B.java", java "p" "public class B { A a; }");
    ("C.java", java "p" "public class C { B b; }");
    ("D.java", java "p" "public class D { C c; }")])])])])])].

(** [X] and [Y] refer to each other. *)
Definition cycle_repo : node :=
  Dir [("repo", Dir [("q", Dir [
    ("X.java", java "q" "class X { Y y; }");
    ("Y.java", java "q" "class Y { X x; }")])])].

(** Three files refer to [T]. *)
Definition fan_repo : node :=
  Dir [("repo", Dir [("p", Dir [
    ("T.java", java "p" "class T { }");
    ("U1.java", java "p" "class U1 { T t; }");
    ("U2.java", java "p" "class U2 { T t; }");
    ("U3.java", java "p" "class U3 { T t; }")])])].

(** A file that cannot be read next to one that can. *)
Definition broken_repo : node :=
  Dir [("repo", Dir [("p", Dir [
    ("A.java", java "p" "class A { }");
    ("B.java", File None);
    ("C.java", java "p" "class C { A a; }")])])].

(** ** Brace counting, as the specification words it *)

Definition brace_delta (c : ascii) : Z :=
  if Cls.one "{" c then 1 else if Cls.one "}" c then -1 else 0.

(** Opening braces minus closing braces of [s]. *)
Fixpoint balance (s : string) : Z :=
  match s with
  | EmptyString => 0
  | String c s' => brace_delta c + balance s'
  end.

(** [closes_at s k]: the character of [s] at offset [k] is a closing brace
    and the braces of [s] up to and with it are balanced. *)
Definition closes_at (s : string) (k : nat) : Prop :=
  String.get k s = Some "}"%char /\ balance (Str.take (S k) s) = 0.

(** The scan with a counter that already stands at [d]. *)
Definition closes_from (d : Z) (s : string) (k : nat) : Prop :=
  String.get k s = Some "}"%char /\ d + balance (Str.take (S k) s) = 0.

(** The index of the first opening brace of [s], which is [code[i:]]. *)
Fixpoint first_open (i : nat) (s : string) : option nat :=
  match s with
  | EmptyString => None
  | String c s' => if Cls.one "{" c then Some i else first_open (S i) s'
  end.

(** The index at which a count that starts at [depth] comes back to zero;
    [s] is [code[i:]]. *)
Fixpoint back_to_zero (i : nat) (depth : Z) (s : string) : option nat :=
  match s with
  | EmptyString => None
  | String c s' =>
      if depth + brace_delta c =? 0 then Some i
      else back_to_zero (S i) (depth + brace_delta c) s'
  end.

(** The extraction as the specification words it: from the start of the
    declaration through the closing brace that returns to zero the count
    started at the first opening brace after the declaration match;
    [None] where the words name no such brace. *)
Definition claimed_full_type (code : string) : option string :=
  m ← search TYPE_RE code;
  j ← first_open (m_end m) (Str.drop (m_end m) code);
  i ← back_to_zero j 0 (Str.drop j code);
  Some (Str.slice (m_start m) (S i) code).

Definition full_type_claim (code : string) : Prop :=
  forall m, search TYPE_RE code = Some m ->
    claimed_full_type code = Some (extract_full_type code).

(** A type whose body has nested braces, with text before and after. *)
Definition nested_source : string :=
  "x class A { void f() { if (a) { } } } class B { }".

(** A closing brace ahead of the first opening one, and a declaration
    that is never closed. *)
Definition stray_source : string := "x class A } { }".
Definition open_source : string := "x class A {".

(** ** Reverse-dependency chains *)

(** [chain fs repo tests k target f]: [f] is [k] reverse-dependency hops
    away from [target]: the search for [target] finds a file, the search
    for the type that file declares finds the next, and so on to [f]. *)
Inductive chain (fs : FS) (repo_path : string) (include_tests : bool)
    : nat -> string -> string -> Prop :=
| chain_one target f :
    f ∈ reverse_matches fs repo_path target include_tests ->
    chain fs repo_path include_tests 1 target f
| chain_step k target g fqn f :
    g ∈ reverse_matches fs repo_path target include_tests ->
    fqn_of_file fs g = Some fqn ->
    chain fs repo_path include_tests k fqn f ->
    chain fs repo_path include_tests (S k) target f.

(** The candidates of one level that the loop goes through. *)
Definition kept (fs : FS) (order : SetOrder) (repo_path : string)
    (include_tests : bool) (limit : option Z) (target_fqn : string)
    : list string :=
  apply_limit limit
    (find_reverse_dependencies fs order repo_path target_fqn include_tests).

(** The state invariant of a traversal: the history has no repetition
    and lists exactly the members of [visited]. *)
Definition consistent (st : trav) : Prop :=
  NoDup (expanded st) /\ forall p, p ∈ expanded st <-> p ∈ visited st.

(** ** The claims on revisits and on the limit, as the specification words them *)

(** No type is expanded twice in a traversal, whatever the levels. *)
Definition fqn_expanded_once (st : trav) : Prop :=
  NoDup (map fst (expanded st)).

(** With a limit, every candidate of the first level is still recorded. *)
Definition records_all_candidates (fs : FS) (order : SetOrder)
    (repo_path : string) (include_tests : bool) (limit : option Z)
    (target_fqn : string) (depth : Z) : Prop :=
  forall f,
    f ∈ find_reverse_dependencies fs order repo_path target_fqn include_tests ->
    f ∈ recursive_reverse_dependencies fs order repo_path include_tests limit
          target_fqn depth.

(** ** The bundle invariant *)

(** No path heads two chunks, and the path of every chunk is in
    [seen_files]. *)
Definition tidy (b : bundle) : Prop :=
  NoDup (map chunk_path (output_chunks b))
  /\ forall c, c ∈ output_chunks b -> chunk_path c ∈ seen_files b.

(** [B] imports and extends [A], [C] imports both and is a
    configuration that builds [B]. *)
Definition bundle_repo : node :=
  Dir [("repo", Dir [("src", Dir [("main", Dir [("java", Dir [("p", Dir [
    ("A.java", java "p" "public class A { }");
    ("B.java", java "p"
       ("import p.A;" +:+ nl +:+ "public class B extends p.A { A a; }"));
    ("C.java", java "p"
       ("import p.A;" +:+ nl +:+ "import p.B;" +:+ nl
        +:+ "@Configuration public class C { B b = new B(); A a; }"))])])])])])].

(** ** Coverage of a traversal *)

(** [covered fs repo tests D V S L]: for every pair of [V] at level [L]
    or deeper, the files within the hops that remain at that level
    ([D] minus the level) satisfy [S]. *)
Definition covered (fs : FS) (repo_path : string) (include_tests : bool)
    (D : Z) (V : gset (string * Z)) (S : string -> Prop) (L : Z) : Prop :=
  forall q l k f,
    (q, l) ∈ V -> L <= l -> l + Z.of_nat k <= D ->
    chain fs repo_path include_tests k q f -> S f.

(** The size a result can have with a fan-out of [n] over [d] levels:
    [n + n^2 + ... + n^d]. *)
Fixpoint fan_bound (n d : nat) : nat :=
  match d with
  | O => O
  | S d' => (n * (1 + fan_bound n d'))%nat
  end.

(** Another order for [list(set(xs))]: [dedup_order] backwards. *)
Definition reversed_order : SetOrder :=
  {| list_set l := reverse (remove_dups l);
     list_set_nodup l :=
       proj2 (NoDup_Permutation_proper _ _ (reverse_Permutation _))
             (NoDup_remove_dups l);
     list_set_elem l x :=
       iff_trans (elem_of_reverse _ _) (elem_of_remove_dups l x) |}.

(** ** The repetition loop of the matcher, on its own *)

Section StarIter.

Context {R : Type}.
Variable body : Re.cursor -> Re.caps -> (Re.cursor -> Re.caps -> option R) -> option R.
Variable greedy : bool.
Variable k : Re.cursor -> Re.caps -> option R.

(** The local loop of [Re.run] at a [Star], with the match of the
    repeated expression as [body]. *)
Fixpoint star_iter (fuel : nat) (c : Re.cursor) (g : Re.caps) {struct fuel}
    : option R :=
  match fuel with
  | O => k c g
  | S fuel' =>
      if greedy then
        match body c g (fun c' g' =>
                if (Re.pos c' =? Re.pos c)%nat then None
                else star_iter fuel' c' g') with
        | Some x => Some x
        | None => k c g
        end
      else
        match k c g with
        | Some x => Some x
        | None =>
            body c g (fun c' g' =>
              if (Re.pos c' =? Re.pos c)%nat then None
              else star_iter fuel' c' g')
        end
  end.

End StarIter.

(** [reaches c c']: the cursor [c'] lies at or after [c] in the same
    text. *)
Definition reaches (c c' : Re.cursor) : Prop :=
  exists n, Re.pos c' = (Re.pos c + n)%nat
            /\ Re.rest c' = Str.drop n (Re.rest c).

(** ** The end of [prepare_context_multi] and the public wrapper *)

(** What a chunk of each kind keeps of the file it was read from. *)
Definition body_of (k : kind) : string -> string :=
  match k with
  | IMPORT _ => extract_full_type
  | _ => id
  end.

(** [str(n)] for a natural number. *)
Definition decimal (n : nat) : string :=
  NilEmpty.string_of_uint (Nat.to_uint n).

(** ["".join(parts)] *)
Fixpoint concat_all (parts : list string) : string :=
  match parts with
  | [] => EmptyString
  | p :: parts' => p +:+ concat_all parts'
  end.

(** [f"{repo_path}"]: [None] prints as the word. *)
Definition show_repo (repo_path : option string) : string :=
  match repo_path with Some r => r | None => "None" end.

(** [context_text]: the header and the chunks, joined. *)
Definition context_text (repo_path : option string)
    (target_files : list string) (b : bundle) : string :=
  "# Context for " +:+ decimal (length target_files) +:+ " files" +:+ nl
  +:+ "# Repo: " +:+ show_repo repo_path +:+ nl +:+ nl
  +:+ concat_all (map render (output_chunks b)).

(** What [prepare_context_multi] returns: the text, or the descriptor
    [{"output": ..., "files": ...}]. *)
Inductive outcome : Type :=
| Returned (text : string)
| Saved (output : string) (files : nat).

(** What a run does to the world besides reading. *)
Inductive effect : Type :=
| Cloned (url tmp : string)
| Written (path text : string)
| Removed (path : string).

(** The bundle for a repository path that may be [None]: then
    [os.path.join] raises on the first target file. *)
Definition bundle_for (fs : FS) (order : SetOrder) (repo_path : option string)
    (depth : Z) (include_tests : bool) (reverse_limit : option Z)
    (target_files : list string) : option bundle :=
  match repo_path with
  | Some r =>
      prepare_context_multi fs order r depth include_tests reverse_limit
        target_files
  | None =>
      match target_files with
      | [] => Some empty_bundle
      | _ :: _ => None
      end
  end.

(** [prepare_context_multi] to its end, with the write of the output
    file as an effect; [can_write p] tells whether [open(p, "w")]
    succeeds.  [None] in the first component: the run raised. *)
Definition prepare_context_outcome (fs : FS) (order : SetOrder)
    (can_write : string -> bool) (repo_path : option string)
    (target_files : list string) (output_file : string) (depth : Z)
    (include_tests : bool) (reverse_limit : option Z) (return_string : bool)
    : option outcome * list effect :=
  match bundle_for fs order repo_path depth include_tests reverse_limit
          target_files with
  | None => (None, [])
  | Some b =>
      let text := context_text repo_path target_files b in
      if return_string then (Some (Returned text), [])
      else if can_write output_file then
        (Some (Saved output_file (size (seen_files b))),
         [Written output_file text])
      else (None, [])
  end.

(** The services of [tempfile] and [git] that [clone_repo] uses:
    [mkdtemp] gives the fresh directory or raises, [clone_from url tmp]
    and [checkout tmp branch] tell whether the command succeeds. *)
Record Git : Type := {
  mkdtemp : option string;
  clone_from : string -> string -> bool;
  checkout : string -> string -> bool
}.

(** [clone_repo]: a checkout that fails is reported and passed over. *)
Definition clone_repo (git : Git) (repo_url branch : string)
    : option string :=
  tmp ← mkdtemp git;
  if clone_from git repo_url tmp then
    if checkout git tmp branch then Some tmp else Some tmp
  else None.

(** [x or None] and [bool(x)] for an optional string. *)
Definition nonempty (x : option string) : option string :=
  match x with
  | Some s => if Str.truthy s then Some s else None
  | None => None
  end.

(** [generate_java_context]: the result ([None] when the run raised)
    and the effects up to that point. *)
Definition generate_java_context (fs : FS) (order : SetOrder) (git : Git)
    (can_write : string -> bool) (repo repo_url : option string)
    (branch : string) (files : option (list string)) (output : string)
    (depth : Z) (include_tests : bool) (reverse_limit : option Z)
    (cleanup return_string : bool) : option outcome * list effect :=
  let run (repo_path temp_repo : option string) (before : list effect) :=
    let '(result, effects) :=
      prepare_context_outcome fs order can_write repo_path
        (default [] files) output depth include_tests reverse_limit
        return_string in
    match result with
    | None => (None, before ++ effects)
    | Some r =>
        match (if cleanup then nonempty temp_repo else None) with
        | Some tmp => (Some r, before ++ effects ++ [Removed tmp])
        | None => (Some r, before ++ effects)
        end
    end in
  match nonempty repo_url with
  | Some url =>
      match clone_repo git url branch with
      | None => (None, [])
      | Some tmp => run (Some tmp) (Some tmp) [Cloned url tmp]
      end
  | None => run (nonempty repo) None []
  end.

(** A [git] whose clone lands in the directory [repo] and whose checkout
    of the branch fails. *)
Definition sample_git : Git :=
  {| mkdtemp := Some "repo";
     clone_from := fun _ _ => true;
     checkout := fun _ _ => false |}.

(** ** The traversal with reads and calls that can fail *)

Section TraversalIO.

Variable fs : FS.
Variable order : SetOrder.
Variable repo_path : string.
Variable include_tests : bool.
Variable limit : option Z.

(** What [open(f, ...).read()] in the loop of
    [recursive_reverse_dependencies] returns, [None] when it raises.
    It is a parameter of its own: the search has read the file before,
    and the file may have become unreadable since. *)
Variable reopen : string -> option string.

(** The loop [for f in files] with everything that its
    [except Exception: continue] covers: the read of the candidate may
    raise, and so may the nested call ([None] in its first component,
    with the visited set as the call left it).  The candidate is
    appended to [results] before the guarded block is entered. *)
Fixpoint expand_files_io
    (call : string -> trav -> option (list string) * trav)
    (files results : list string) (st : trav) : list string * trav :=
  match files with
  | [] => (results, st)
  | f :: files' =>
      let results := results ++ [f] in
      match reopen f ≫= fqn_of_code with
      | None => expand_files_io call files' results st
      | Some fqn =>
          match call fqn st with
          | (Some sub_results, st') =>
              expand_files_io call files' (results ++ sub_results) st'
          | (None, st') => expand_files_io call files' results st'
          end
      end
  end.

(** [recursive_reverse_dependencies] where [frames] is the number of
    nested calls of the function that the stack of the interpreter
    still admits: a call made when none is left raises
    [RecursionError], here [None]. *)
Fixpoint rrd_io (frames : nat) (target_fqn : string) (depth : Z) (st : trav)
    (current_depth : Z) {struct frames} : option (list string) * trav :=
  match frames with
  | O => (None, st)
  | S frames' =>
      if depth <=? 0 then (Some [], st)
      else if bool_decide ((target_fqn, current_depth) ∈ visited st)
      then (Some [], st)
      else
        let st := mark (target_fqn, current_depth) st in
        let files :=
          apply_limit limit
            (find_reverse_dependencies fs order repo_path target_fqn
               include_tests) in
        let '(results, st') :=
          expand_files_io
            (fun fqn s => rrd_io frames' fqn (depth - 1) s (current_depth + 1))
            files [] st in
        (Some (order results), st')
  end.

(** The outermost call, with [visited=None] and [current_depth=1]. *)
Definition traverse_io (frames : nat) (target_fqn : string) (depth : Z)
    : option (list string) * trav :=
  rrd_io frames target_fqn depth fresh 1.

End TraversalIO.

(** The claim on failing reads, as the specification words it: a file
    whose read fails in the traversal is in no returned list. *)
Definition failed_reads_contribute_nothing (fs : FS) (order : SetOrder)
    (repo_path : string) (include_tests : bool) (limit : option Z)
    (reopen : string -> option string) (frames : nat) (target_fqn : string)
    (depth : Z) : Prop :=
  forall results st',
    traverse_io fs order repo_path include_tests limit reopen frames
      target_fqn depth = (Some results, st') ->
    forall f, reopen f = None -> f ∉ results.

(** [chain_repo] as the loop of the traversal sees it when [B.java] has
    become unreadable after the search read it. *)
Definition reopen_without_B (p : string) : option string :=
  if String.eqb p "repo/src/main/java/p/B.java" then None
  else read (tree_fs chain_repo) p.

(** A class name that is a Java identifier, as group 2 of [TYPE_RE]
    gives it: in a pattern such a name stands for itself. *)
Definition identifier_name (s : string) : bool :=
  match s with
  | EmptyString => false
  | String c s' =>
      Cls.ident_start c
      && forallb Cls.ident_char (list_ascii_of_string s')
  end.

(** * Properties *)

(** ** Strings and paths *)

Lemma len_app (s t : string) : Str.len (s +:+ t) = (Str.len s + Str.len t)%nat.
Proof. induction s as [|c s IH]; simpl; [reflexivity | now rewrite <- IH]. Qed.

Lemma drop_app (s t : string) : Str.drop (Str.len s) (s +:+ t) = t.
Proof. induction s as [|c s IH]; simpl; auto. Qed.

Lemma take_app (s t : string) : Str.take (Str.len s) (s +:+ t) = s.
Proof. induction s as [|c s IH]; simpl; [now destruct t | now rewrite IH]. Qed.

Lemma endswith_app (s t : string) : Str.endswith t (s +:+ t) = true.
Proof.
  unfold Str.endswith. rewrite len_app.
  replace (Str.len s + Str.len t - Str.len t)%nat with (Str.len s) by lia.
  rewrite drop_app, String.eqb_refl, andb_true_r.
  apply Nat.leb_le. lia.
Qed.

Lemma wildcard_package (pkg : string) :
  Str.take (Str.len (pkg +:+ ".*") - 2) (pkg +:+ ".*") = pkg.
Proof.
  rewrite len_app. simpl.
  replace (Str.len pkg + 2 - 2)%nat with (Str.len pkg) by lia.
  apply take_app.
Qed.

Lemma startswith_replace (a b c : ascii) (s : string) :
  a <> c -> b <> c ->
  Str.startswith (String c EmptyString) (Str.replace_char a b s)
  = Str.startswith (String c EmptyString) s.
Proof.
  intros Ha Hb. destruct s as [|x s]; simpl; [reflexivity|].
  destruct (Ascii.eqb_spec x a) as [->|Hx].
  - destruct (Ascii.eqb_spec c b), (Ascii.eqb_spec c a); congruence.
  - reflexivity.
Qed.

Lemma startswith_app_l (c : ascii) (s t : string) :
  Str.startswith (String c EmptyString) s = false ->
  Str.truthy s = true ->
  Str.startswith (String c EmptyString) (s +:+ t) = false.
Proof. destruct s; simpl; [discriminate | auto]. Qed.

(** [os.path.join] on a non-empty base without a trailing slash and a
    relative second part puts one slash between them. *)
Lemma os_path_join_rel (a b : string) :
  Str.truthy a = true -> Str.endswith "/" a = false ->
  Str.startswith "/" b = false ->
  os_path_join a b = a +:+ "/" +:+ b.
Proof.
  intros Ha He Hb. unfold os_path_join. now rewrite Hb, Ha, He.
Qed.

Lemma app_assoc_str (s t u : string) : (s +:+ t) +:+ u = s +:+ (t +:+ u).
Proof. induction s as [|c s IH]; simpl; [reflexivity | f_equal; exact IH]. Qed.

Lemma truthy_app_r (s t : string) : Str.truthy t = true -> Str.truthy (s +:+ t) = true.
Proof. destruct s; simpl; auto. Qed.

Lemma endswith_slash_app (a t : string) (c : ascii) :
  c <> "/"%char ->
  Str.endswith "/" (a +:+ t +:+ String c EmptyString) = false.
Proof.
  intros Hc. unfold Str.endswith.
  rewrite <- app_assoc_str, len_app. simpl Str.len.
  replace (Str.len (a +:+ t) + 1 - 1)%nat with (Str.len (a +:+ t)) by lia.
  rewrite drop_app. simpl.
  destruct (Ascii.eqb_spec c "/"); [contradiction|].
  apply andb_false_r.
Qed.

(** The source root [<repo>/src/main/java]. *)
Lemma base_src_explicit (repo : string) :
  Str.truthy repo = true -> Str.endswith "/" repo = false ->
  os_path_join repo "src/main/java" = repo +:+ "/src/main/java".
Proof. intros H1 H2. now rewrite os_path_join_rel. Qed.

Lemma base_src_plain (repo : string) :
  Str.truthy (repo +:+ "/src/main/java") = true
  /\ Str.endswith "/" (repo +:+ "/src/main/java") = false.
Proof.
  split; [now apply truthy_app_r|].
  apply (endswith_slash_app repo "/src/main/jav" "a"). discriminate.
Qed.

Lemma elem_of_flat_map {A B : Type} (f : A -> list B) (l : list A) (y : B) :
  y ∈ flat_map f l <-> exists x, x ∈ l /\ y ∈ f x.
Proof.
  rewrite list_elem_of_In, in_flat_map.
  split; intros (x & Hx & Hy); exists x.
  - now rewrite !list_elem_of_In.
  - now rewrite <- !list_elem_of_In.
Qed.

Lemma elem_of_map {A B : Type} (f : A -> B) (l : list A) (y : B) :
  y ∈ map f l <-> exists x, x ∈ l /\ y = f x.
Proof.
  rewrite list_elem_of_In, in_map_iff.
  split; intros (x & Hx & Hy).
  - exists x. now rewrite list_elem_of_In.
  - exists x. now rewrite <- list_elem_of_In.
Qed.

(** Membership in a list that is written out. *)
Ltac find_elem :=
  repeat (apply elem_of_cons; first [left; reflexivity | right]).

(** ** Import resolution *)

(** C7. With a repository path that is not empty and has no trailing
    slash, and an import name that begins with neither a dot nor a slash:
    an import [a.b.C] without the wildcard suffix resolves to the one
    path [<repo>/src/main/java/a/b/C.java] when that file exists and to
    nothing otherwise, so to at most one path; a wildcard import [a.b.*]
    resolves to exactly the [.java] files that [os.walk] lists under
    [<repo>/src/main/java/a/b], and to nothing when that is not a
    directory. *)
Theorem resolve_import_paths (fs : FS) (repo : string) :
  Str.truthy repo = true ->
  Str.endswith "/" repo = false ->
  (forall name,
      Str.endswith ".*" name = false ->
      Str.startswith "/" (java_package_to_path name) = false ->
      let p := repo +:+ "/src/main/java/" +:+ java_package_to_path name
               +:+ ".java" in
      resolve_import fs name repo = (if exists_ fs p then [p] else [])
      /\ (length (resolve_import fs name repo) <= 1)%nat)
  /\ (forall pkg,
      Str.startswith "/" (java_package_to_path pkg) = false ->
      let d := repo +:+ "/src/main/java/" +:+ java_package_to_path pkg in
      (isdir fs d = false -> resolve_import fs (pkg +:+ ".*") repo = [])
      /\ (isdir fs d = true ->
          forall p,
            p ∈ resolve_import fs (pkg +:+ ".*") repo <->
            exists root dirs files f,
              (root, dirs, files) ∈ walk fs d /\ f ∈ files
              /\ Str.endswith ".java" f = true /\ p = os_path_join root f)).
Proof.
  intros Hne Hsl.
  assert (Hjoin : forall rel, Str.startswith "/" rel = false ->
            os_path_join (os_path_join repo "src/main/java") rel
            = repo +:+ "/src/main/java/" +:+ rel).
  { intros rel Hrel. rewrite base_src_explicit by assumption.
    destruct (base_src_plain repo) as [H1 H2].
    rewrite os_path_join_rel by assumption.
    now rewrite app_assoc_str. }
  split.
  - intros name Hw Hrel p. unfold resolve_import. rewrite Hw.
    rewrite Hjoin.
    + fold p. destruct (exists_ fs p); simpl; split; auto; lia.
    + destruct (java_package_to_path name); [reflexivity | exact Hrel].
  - intros pkg Hrel d. unfold resolve_import.
    rewrite endswith_app, wildcard_package, Hjoin by assumption.
    fold d. split; [intros ->; reflexivity|]. intros ->.
    intros p. rewrite elem_of_flat_map. split.
    + intros ([[root dirs] files] & Hin & Hp).
      apply elem_of_map in Hp as (f & Hf & ->).
      apply list_elem_of_filter in Hf as [Hj Hf].
      exists root, dirs, files, f. repeat split; auto.
      now apply Is_true_true.
    + intros (root & dirs & files & f & Hin & Hf & Hj & ->).
      exists (root, dirs, files). split; [assumption|].
      apply elem_of_map. exists f. split; [|reflexivity].
      apply list_elem_of_filter. split; [now apply Is_true_true | assumption].
Qed.

(** The theorem at the repository [chain_repo]: [p.C] resolves to its
    one file, [p.Z] to nothing and [p.*] to the files of the package. *)
Lemma resolve_import_paths_witness :
  let fs := tree_fs chain_repo in
  resolve_import fs "p.C" "repo" = ["repo/src/main/java/p/C.java"]
  /\ resolve_import fs "p.Z" "repo" = []
  /\ resolve_import fs "q.*" "repo" = []
  /\ "repo/src/main/java/p/A.java" ∈ resolve_import fs "p.*" "repo".
Proof.
  intros fs.
  destruct (resolve_import_paths fs "repo" eq_refl eq_refl) as [Hone Hall].
  split; [exact (proj1 (Hone "p.C" eq_refl eq_refl))|].
  split; [exact (proj1 (Hone "p.Z" eq_refl eq_refl))|].
  split; [exact (proj1 (Hall "q" eq_refl) eq_refl)|].
  apply (proj2 (Hall "p" eq_refl) eq_refl).
  exists "repo/src/main/java/p", [], ["A.java"; "B.java"; "C.java"; "D.java"],
         "A.java".
  split; [|split; [|split; reflexivity]]; vm_compute; find_elem.
Defined.

(** ** Full-type extraction *)

(** C6. Text in which [TYPE_RE] finds no class, interface, enum or record
    declaration is returned as it is. *)
Theorem extract_full_type_no_declaration (code : string) :
  search TYPE_RE code = None -> extract_full_type code = code.
Proof. intros H. unfold extract_full_type. now rewrite H. Qed.

Lemma extract_full_type_no_declaration_witness :
  extract_full_type "int x = 1; // no type here" = "int x = 1; // no type here".
Proof. apply extract_full_type_no_declaration. reflexivity. Defined.

Lemma closes_from_zero (s : string) (k : nat) :
  closes_at s k <-> closes_from 0 s k.
Proof. unfold closes_at, closes_from. now rewrite Z.add_0_l. Qed.

Lemma closes_from_cons (d : Z) (c : ascii) (s : string) (k : nat) :
  closes_from d (String c s) (S k) <-> closes_from (d + brace_delta c) s k.
Proof.
  unfold closes_from. simpl String.get.
  change (Str.take (S (S k)) (String c s)) with (String c (Str.take (S k) s)).
  simpl balance. rewrite Z.add_assoc. reflexivity.
Qed.

Lemma closes_from_here (d : Z) (c : ascii) (s : string) :
  closes_from d (String c s) 0 <-> c = "}"%char /\ d - 1 = 0.
Proof.
  unfold closes_from. simpl. unfold brace_delta.
  split.
  - intros [H1 H2]. injection H1 as ->. simpl in H2. split; [reflexivity | lia].
  - intros [-> H]. simpl. split; [reflexivity | lia].
Qed.

Lemma brace_delta_cases (c : ascii) :
  (Cls.one "{" c = true /\ brace_delta c = 1 /\ c <> "}"%char)
  \/ (Cls.one "{" c = false /\ Cls.one "}" c = true /\ brace_delta c = -1
      /\ c = "}"%char)
  \/ (Cls.one "{" c = false /\ Cls.one "}" c = false /\ brace_delta c = 0
      /\ c <> "}"%char).
Proof.
  unfold brace_delta, Cls.one.
  destruct (Ascii.eqb_spec "{" c) as [<-|H1]; [left; repeat split; discriminate|].
  destruct (Ascii.eqb_spec "}" c) as [<-|H2]; [right; left; auto|].
  right; right. repeat split; congruence.
Qed.

(** The loop returns at the first offset that closes. *)
Lemma scan_braces_closes (code : string) (start : nat) (s : string) :
  forall (i : nat) (d : Z) (k : nat),
    closes_from d s k ->
    (forall j, (j < k)%nat -> ~ closes_from d s j) ->
    scan_braces code start i d s = Str.slice start (S (i + k)) code.
Proof.
  induction s as [|c s IH]; intros i d k Hk Hmin.
  - destruct Hk as [Hget _]. destruct k; discriminate.
  - assert (Hstep : forall d', d' = d + brace_delta c -> (k <> 0)%nat ->
               scan_braces code start (S i) d' s
               = Str.slice start (S (i + k)) code).
    { intros d' -> Hk0. destruct k as [|k]; [contradiction|].
      replace (i + S k)%nat with (S i + k)%nat by lia.
      apply IH.
      - now apply closes_from_cons.
      - intros j Hj Hc. apply (Hmin (S j)); [lia|]. now apply closes_from_cons. }
    cbn [scan_braces].
    destruct (brace_delta_cases c)
      as [(E1 & Hd & Hc)|[(E1 & E2 & Hd & Hc)|(E1 & E2 & Hd & Hc)]].
    + rewrite E1. apply Hstep; [rewrite Hd; reflexivity|].
      intros ->. apply closes_from_here in Hk as [? _]. contradiction.
    + rewrite E1, E2. destruct (Z.eqb_spec (d - 1) 0) as [Hz|Hz].
      * destruct k as [|k]; [now rewrite Nat.add_0_r|].
        exfalso. apply (Hmin O); [lia|]. now apply closes_from_here.
      * apply Hstep; [rewrite Hd; lia|].
        intros ->. apply closes_from_here in Hk as [_ ?]. contradiction.
    + rewrite E1, E2. apply Hstep; [rewrite Hd; lia|].
      intros ->. apply closes_from_here in Hk as [? _]. contradiction.
Qed.

(** Without an offset that closes, the loop runs out and the whole text
    is returned. *)
Lemma scan_braces_open (code : string) (start : nat) (s : string) :
  forall (i : nat) (d : Z),
    (forall k, ~ closes_from d s k) ->
    scan_braces code start i d s = code.
Proof.
  induction s as [|c s IH]; intros i d Hno; [reflexivity|].
  assert (Hstep : forall d', d' = d + brace_delta c ->
             scan_braces code start (S i) d' s = code).
  { intros d' ->. apply IH. intros k Hk. apply (Hno (S k)).
    now apply closes_from_cons. }
  cbn [scan_braces].
  destruct (brace_delta_cases c)
    as [(E1 & Hd & Hc)|[(E1 & E2 & Hd & Hc)|(E1 & E2 & Hd & Hc)]].
  - rewrite E1. apply Hstep. rewrite Hd. reflexivity.
  - rewrite E1, E2. destruct (Z.eqb_spec (d - 1) 0) as [Hz|Hz].
    + exfalso. apply (Hno O). now apply closes_from_here.
    + apply Hstep. rewrite Hd. lia.
  - rewrite E1, E2. apply Hstep. rewrite Hd. lia.
Qed.

(** C5, as the code has it. Where [TYPE_RE] finds a declaration, the
    braces are counted over the text that follows the match, the count
    starting at zero at the end of the match: the result runs from the
    start of the declaration through the first closing brace at which
    the braces counted so far are balanced, and when no closing brace
    balances them the input comes back unchanged. *)
Theorem extract_full_type_balanced (code : string) (m : rmatch) :
  search TYPE_RE code = Some m ->
  let after := Str.drop (m_end m) code in
  (forall k,
      closes_at after k ->
      (forall j, (j < k)%nat -> ~ closes_at after j) ->
      extract_full_type code = Str.slice (m_start m) (S (m_end m + k)) code)
  /\ ((forall k, ~ closes_at after k) -> extract_full_type code = code).
Proof.
  intros Hm after. unfold extract_full_type. rewrite Hm. fold after. split.
  - intros k Hk Hmin. apply scan_braces_closes.
    + now apply closes_from_zero.
    + intros j Hj Hc. apply (Hmin j Hj). now apply closes_from_zero.
  - intros Hno. apply scan_braces_open.
    intros k Hk. apply (Hno k). now apply closes_from_zero.
Qed.

(** The theorem at [nested_source]: the text ends at the brace that
    closes [A], not at an inner one and not at the end of the input. *)
Lemma extract_full_type_balanced_witness :
  extract_full_type nested_source = " class A { void f() { if (a) { } } }".
Proof.
  destruct (search TYPE_RE nested_source) as [m|] eqn:Hm;
    [|vm_compute in Hm; discriminate].
  destruct (extract_full_type_balanced nested_source m Hm) as [Hclose _].
  vm_compute in Hm. injection Hm as <-.
  rewrite (Hclose 27%nat).
  - reflexivity.
  - split; reflexivity.
  - intros j Hj [Hg Hb].
    do 27 (destruct j as [|j]; [vm_compute in Hg, Hb; congruence|]). lia.
Defined.

(** C5 as stated fails: in [stray_source] the count started at the
    first opening brace is back at zero at the last character, yet the
    whole input is returned, text before the declaration included; in
    [open_source] no brace closes the declaration and the whole input is
    returned as well. *)
Lemma extract_full_type_counterexample :
  ~ full_type_claim stray_source /\ ~ full_type_claim open_source.
Proof.
  split; intros H.
  - destruct (search TYPE_RE stray_source) as [m|] eqn:Hm;
      [|vm_compute in Hm; discriminate].
    specialize (H m Hm). vm_compute in H. congruence.
  - destruct (search TYPE_RE open_source) as [m|] eqn:Hm;
      [|vm_compute in Hm; discriminate].
    specialize (H m Hm). vm_compute in H. congruence.
Qed.

Example stray_source_runs :
  claimed_full_type stray_source = Some " class A } { }"
  /\ extract_full_type stray_source = "x class A } { }"
  /\ claimed_full_type open_source = None
  /\ extract_full_type open_source = "x class A {".
Proof. repeat split; reflexivity. Qed.

(** ** The traversal *)

Section TraversalFacts.

Context (fs : FS) (order : SetOrder) (repo : string) (tests : bool).

Implicit Types (limit : option Z) (st : trav) (call : string -> trav -> option (list string * trav)).

Lemma rrd_unfold limit fuel target depth st cur :
  rrd fs order repo tests limit (S fuel) target depth st cur =
  if depth <=? 0 then Some ([], st)
  else if bool_decide ((target, cur) ∈ visited st) then Some ([], st)
  else
    match
      expand_files fs
        (fun fqn st' =>
           rrd fs order repo tests limit fuel fqn (depth - 1) st' (cur + 1))
        (kept fs order repo tests limit target) []
        (mark (target, cur) st)
    with
    | None => None
    | Some (results, st') => Some (order results, st')
    end.
Proof. reflexivity. Qed.

(** An induction principle for the loop: [P] holds of the results and
    state at the end when recording a file and merging the results of
    a call both keep it. *)
Lemma expand_files_invariant (P : list string -> trav -> Prop) call :
  forall files results st res st',
    (forall f rs s, f ∈ files -> P rs s -> P (rs ++ [f]) s) ->
    (forall f fqn rs s sub s',
        f ∈ files -> fqn_of_file fs f = Some fqn ->
        P rs s -> call fqn s = Some (sub, s') -> P (rs ++ sub) s') ->
    P results st ->
    expand_files fs call files results st = Some (res, st') ->
    P res st'.
Proof.
  induction files as [|f files IH]; intros results st res st' Hrec Hcall HP H.
  - simpl in H. now injection H as <- <-.
  - simpl in H.
    assert (Hf : f ∈ f :: files) by (apply elem_of_cons; now left).
    assert (Hrec' : forall f0 rs s, f0 ∈ files -> P rs s -> P (rs ++ [f0]) s).
    { intros f0 rs s H0. apply Hrec. apply elem_of_cons. now right. }
    assert (Hcall' : forall f0 fqn rs s sub s',
               f0 ∈ files -> fqn_of_file fs f0 = Some fqn ->
               P rs s -> call fqn s = Some (sub, s') -> P (rs ++ sub) s').
    { intros f0 fqn rs s sub s' H0. apply Hcall. apply elem_of_cons. now right. }
    destruct (fqn_of_file fs f) as [fqn|] eqn:Hq.
    + destruct (call fqn st) as [[sub st1]|] eqn:Hc; [|discriminate].
      apply (IH _ _ _ _ Hrec' Hcall') in H; [assumption|].
      apply (Hcall f fqn _ st sub st1); auto.
    + apply (IH _ _ _ _ Hrec' Hcall') in H; [assumption|]. now apply Hrec.
Qed.

(** The loop returns when every call does. *)
Lemma expand_files_total call :
  (forall fqn st, is_Some (call fqn st)) ->
  forall files results st, is_Some (expand_files fs call files results st).
Proof.
  intros Hcall. induction files as [|f files IH]; intros results st; simpl.
  - eauto.
  - destruct (fqn_of_file fs f) as [fqn|]; [|apply IH].
    destruct (Hcall fqn st) as [[sub st1] ->]. apply IH.
Qed.

(** Calls that agree give the same loop. *)
Lemma expand_files_ext call1 call2 :
  (forall fqn st, call1 fqn st = call2 fqn st) ->
  forall files results st,
    expand_files fs call1 files results st
    = expand_files fs call2 files results st.
Proof.
  intros Hc. induction files as [|f files IH]; intros results st; simpl.
  - reflexivity.
  - destruct (fqn_of_file fs f) as [fqn|]; [|apply IH].
    rewrite Hc. destruct (call2 fqn st) as [[sub st1]|]; [apply IH | reflexivity].
Qed.

(** Every file the loop goes through is recorded. *)
Lemma expand_files_records call :
  forall files results st res st',
    expand_files fs call files results st = Some (res, st') ->
    forall f, f ∈ results \/ f ∈ files -> f ∈ res.
Proof.
  induction files as [|f files IH]; intros results st res st' H g Hg.
  - simpl in H. injection H as <- <-. destruct Hg as [Hg|Hg]; [assumption|].
    now apply elem_of_nil in Hg.
  - simpl in H.
    assert (Hg' : forall sub, g ∈ (results ++ [f]) ++ sub \/ g ∈ files).
    { intros sub. destruct Hg as [Hg|Hg].
      - left. rewrite !elem_of_app. auto.
      - apply elem_of_cons in Hg as [->|Hg]; [|now right].
        left. rewrite !elem_of_app, list_elem_of_singleton. auto. }
    destruct (fqn_of_file fs f) as [fqn|].
    + destruct (call fqn st) as [[sub st1]|]; [|discriminate].
      exact (IH _ _ _ _ H g (Hg' sub)).
    + apply (IH _ _ _ _ H g). specialize (Hg' []).
      now rewrite app_nil_r in Hg'.
Qed.

Lemma apply_limit_subseteq {A : Type} limit (l : list A) x :
  x ∈ apply_limit limit l -> x ∈ l.
Proof.
  unfold apply_limit, slice_to. intros H.
  destruct limit as [n|]; [|assumption].
  destruct (n =? 0); [assumption|].
  destruct (0 <=? n); eapply subseteq_take; eassumption.
Qed.

Lemma kept_found limit target f :
  f ∈ kept fs order repo tests limit target ->
  f ∈ reverse_matches fs repo target tests.
Proof.
  intros H. unfold kept in H. apply apply_limit_subseteq in H.
  unfold find_reverse_dependencies in H.
  exact (proj1 (list_set_elem order _ _) H).
Qed.

(** *** Termination *)

Lemma rrd_total limit fuel :
  forall target depth st cur,
    (Z.to_nat depth < fuel)%nat ->
    is_Some (rrd fs order repo tests limit fuel target depth st cur).
Proof.
  induction fuel as [|fuel IH]; intros target depth st cur Hfuel; [lia|].
  rewrite rrd_unfold.
  destruct (Z.leb_spec depth 0) as [Hd|Hd]; [eauto|].
  destruct (bool_decide _); [eauto|].
  edestruct (expand_files_total
    (fun fqn st' => rrd fs order repo tests limit fuel fqn (depth - 1) st' (cur + 1)))
    as [[res st'] ->]; [|eauto].
  intros fqn st0. apply IH. lia.
Qed.

(** More fuel does not change a result. *)
Lemma rrd_fuel_mono limit fuel :
  forall fuel' target depth st cur r,
    (fuel <= fuel')%nat ->
    rrd fs order repo tests limit fuel target depth st cur = Some r ->
    rrd fs order repo tests limit fuel' target depth st cur = Some r.
Proof.
  induction fuel as [|fuel IH]; intros fuel' target depth st cur r Hle H;
    [discriminate|].
  destruct fuel' as [|fuel']; [lia|].
  rewrite rrd_unfold in *.
  destruct (depth <=? 0); [assumption|].
  destruct (bool_decide _); [assumption|].
  set (call := fun fqn st' =>
         rrd fs order repo tests limit fuel fqn (depth - 1) st' (cur + 1)) in *.
  set (call' := fun fqn st' =>
         rrd fs order repo tests limit fuel' fqn (depth - 1) st' (cur + 1)).
  assert (Hloop : forall files results s x,
             expand_files fs call files results s = Some x ->
             expand_files fs call' files results s = Some x).
  { induction files as [|f files IHf]; intros results s x Hx; simpl in *;
      [assumption|].
    destruct (fqn_of_file fs f) as [fqn|]; [|now apply IHf].
    destruct (call fqn s) as [[sub s1]|] eqn:Hc; [|discriminate].
    unfold call in Hc. apply (IH fuel') in Hc; [|lia].
    unfold call'. rewrite Hc. now apply IHf. }
  destruct (expand_files fs call _ _ _) as [[res st']|] eqn:Hx; [|discriminate].
  apply Hloop in Hx. now rewrite Hx.
Qed.

(** *** What the result holds *)

Lemma rrd_sound limit fuel :
  forall target depth st cur res st',
    rrd fs order repo tests limit fuel target depth st cur = Some (res, st') ->
    forall f, f ∈ res ->
      exists k, (1 <= k)%nat /\ Z.of_nat k <= depth
                /\ chain fs repo tests k target f.
Proof.
  induction fuel as [|fuel IH]; intros target depth st cur res st' H f Hf;
    [discriminate|].
  rewrite rrd_unfold in H.
  destruct (Z.leb_spec depth 0) as [Hd|Hd].
  { injection H as <- <-. now apply elem_of_nil in Hf. }
  destruct (bool_decide _).
  { injection H as <- <-. now apply elem_of_nil in Hf. }
  destruct (expand_files _ _ _ _ _) as [[results st1]|] eqn:Hx; [|discriminate].
  injection H as <- <-. apply (proj1 (list_set_elem order _ _)) in Hf.
  revert f Hf.
  refine (expand_files_invariant
            (fun rs _ => forall f, f ∈ rs ->
               exists k, (1 <= k)%nat /\ Z.of_nat k <= depth
                         /\ chain fs repo tests k target f)
            _ _ _ _ _ _ _ _ _ Hx).
  - intros g rs s Hg HP f Hf. apply elem_of_app in Hf as [Hf|Hf]; [auto|].
    apply list_elem_of_singleton in Hf as ->.
    exists 1%nat. repeat split; [lia|lia|].
    apply chain_one. eapply kept_found; eassumption.
  - intros g fqn rs s sub s' Hg Hq HP Hc f Hf.
    apply elem_of_app in Hf as [Hf|Hf]; [auto|].
    destruct (IH _ _ _ _ _ _ Hc f Hf) as (k & Hk1 & Hk2 & Hch).
    exists (S k). repeat split; [lia|lia|].
    eapply chain_step; [eapply kept_found| |]; eassumption.
  - intros f Hf. now apply elem_of_nil in Hf.
Qed.

(** *** The visited set and the history *)

Lemma rrd_visited_mono limit fuel :
  forall target depth st cur res st',
    rrd fs order repo tests limit fuel target depth st cur = Some (res, st') ->
    visited st ⊆ visited st'.
Proof.
  induction fuel as [|fuel IH]; intros target depth st cur res st' H;
    [discriminate|].
  rewrite rrd_unfold in H.
  destruct (depth <=? 0); [injection H as <- <-; reflexivity|].
  destruct (bool_decide _); [injection H as <- <-; reflexivity|].
  destruct (expand_files _ _ _ _ _) as [[results st1]|] eqn:Hx; [|discriminate].
  injection H as <- <-.
  refine (expand_files_invariant (fun _ s => visited st ⊆ visited s)
            _ _ _ _ _ _ _ _ _ Hx).
  - auto.
  - intros g fqn rs s sub s' _ _ HP Hc. apply IH in Hc. set_solver.
  - simpl. set_solver.
Qed.

Lemma rrd_marks limit fuel target depth st cur res st' :
  0 < depth ->
  rrd fs order repo tests limit fuel target depth st cur = Some (res, st') ->
  (target, cur) ∈ visited st'.
Proof.
  intros Hd H. destruct fuel as [|fuel]; [discriminate|].
  pose proof (rrd_visited_mono _ _ _ _ _ _ _ _ H) as Hmono.
  rewrite rrd_unfold in H.
  destruct (Z.leb_spec depth 0); [lia|].
  destruct (bool_decide_reflect ((target, cur) ∈ visited st)) as [Hin|Hin].
  { injection H as <- <-. assumption. }
  destruct (expand_files _ _ _ _ _) as [[results st1]|] eqn:Hx; [|discriminate].
  injection H as <- <-.
  refine (expand_files_invariant (fun _ s => (target, cur) ∈ visited s)
            _ _ _ _ _ _ _ _ _ Hx).
  - auto.
  - intros g fqn rs s sub s' _ _ HP Hc.
    apply rrd_visited_mono in Hc. set_solver.
  - simpl. set_solver.
Qed.

(** Every candidate of the loop whose type is recovered has that type
    in the visited set afterwards, when the calls of the loop expand. *)
Lemma expand_files_marks limit fuel depth cur :
  0 < depth ->
  forall files results st res st',
    expand_files fs
      (fun fqn s => rrd fs order repo tests limit fuel fqn depth s cur)
      files results st = Some (res, st') ->
    forall g q, g ∈ files -> fqn_of_file fs g = Some q ->
                (q, cur) ∈ visited st'.
Proof.
  intros Hd. induction files as [|f files IH];
    intros results st res st' H g q Hg Hq.
  - now apply elem_of_nil in Hg.
  - simpl in H. apply elem_of_cons in Hg as [->|Hg].
    + rewrite Hq in H.
      destruct (rrd _ _ _ _ _ _ _ _ _ _) as [[sub st1]|] eqn:Hc; [|discriminate].
      apply rrd_marks in Hc; [|assumption].
      assert (Hmono : visited st1 ⊆ visited st'); [|set_solver].
      refine (expand_files_invariant (fun _ s => visited st1 ⊆ visited s)
                _ _ _ _ _ _ _ _ _ H); [auto| |reflexivity].
      intros g fqn rs s sub' s' _ _ HP Hc'.
      apply rrd_visited_mono in Hc'. set_solver.
    + destruct (fqn_of_file fs f) as [fqn|]; [|eauto].
      destruct (rrd _ _ _ _ _ _ _ _ _ _) as [[sub st1]|]; [eauto|discriminate].
Qed.

Lemma mark_consistent p st :
  consistent st -> p ∉ visited st -> consistent (mark p st).
Proof.
  intros [Hnd Hiff] Hp. split; simpl.
  - apply NoDup_app. repeat split; [assumption| |apply NoDup_singleton].
    intros x Hx Hx'. apply list_elem_of_singleton in Hx' as ->.
    apply Hp. now apply Hiff.
  - intros x. rewrite elem_of_app, list_elem_of_singleton, elem_of_union,
      elem_of_singleton, Hiff. tauto.
Qed.

Lemma rrd_consistent limit fuel :
  forall target depth st cur res st',
    consistent st ->
    rrd fs order repo tests limit fuel target depth st cur = Some (res, st') ->
    consistent st'.
Proof.
  induction fuel as [|fuel IH]; intros target depth st cur res st' Hst H;
    [discriminate|].
  rewrite rrd_unfold in H.
  destruct (depth <=? 0); [injection H as <- <-; assumption|].
  destruct (bool_decide_reflect ((target, cur) ∈ visited st)) as [Hin|Hin].
  { injection H as <- <-. assumption. }
  destruct (expand_files _ _ _ _ _) as [[results st1]|] eqn:Hx; [|discriminate].
  injection H as <- <-.
  refine (expand_files_invariant (fun _ s => consistent s)
            _ _ _ _ _ _ _ _ _ Hx).
  - auto.
  - intros g fqn rs s sub s' _ _ HP Hc. eapply IH; eassumption.
  - now apply mark_consistent.
Qed.

(** The entries a call adds to the history: its own target at its own
    level, the types of the candidates it kept one level down, and
    entries further down. *)
Lemma rrd_history limit fuel :
  forall target depth st cur res st',
    rrd fs order repo tests limit fuel target depth st cur = Some (res, st') ->
    exists new,
      expanded st' = expanded st ++ new
      /\ forall q c, (q, c) ∈ new ->
           (c = cur /\ q = target)
           \/ (c = cur + 1
               /\ exists g, g ∈ kept fs order repo tests limit target
                            /\ fqn_of_file fs g = Some q)
           \/ cur + 2 <= c.
Proof.
  induction fuel as [|fuel IH]; intros target depth st cur res st' H;
    [discriminate|].
  rewrite rrd_unfold in H.
  destruct (depth <=? 0).
  { injection H as <- <-. exists []. rewrite app_nil_r. split; [reflexivity|].
    intros q c Hq. now apply elem_of_nil in Hq. }
  destruct (bool_decide _).
  { injection H as <- <-. exists []. rewrite app_nil_r. split; [reflexivity|].
    intros q c Hq. now apply elem_of_nil in Hq. }
  destruct (expand_files _ _ _ _ _) as [[results st1]|] eqn:Hx; [|discriminate].
  injection H as <- <-.
  refine (expand_files_invariant
            (fun _ s => exists new,
               expanded s = expanded st ++ new
               /\ forall q c, (q, c) ∈ new ->
                    (c = cur /\ q = target)
                    \/ (c = cur + 1
                        /\ exists g, g ∈ kept fs order repo tests limit target
                                     /\ fqn_of_file fs g = Some q)
                    \/ cur + 2 <= c)
            _ _ _ _ _ _ _ _ _ Hx).
  - auto.
  - intros g fqn rs s sub s' Hg Hq (new & Hnew & Hall) Hc.
    apply IH in Hc as (new' & Hnew' & Hall').
    exists (new ++ new'). split; [now rewrite Hnew', Hnew, app_assoc|].
    intros q c Hin. apply elem_of_app in Hin as [Hin|Hin]; [auto|].
    destruct (Hall' q c Hin) as [[-> ->]|[[-> _]|Hc]].
    + right; left. split; [reflexivity|]. eauto.
    + right; right. lia.
    + right; right. lia.
  - exists [(target, cur)]. split; [reflexivity|].
    intros q c Hin. apply list_elem_of_singleton in Hin.
    injection Hin as -> ->. auto.
Qed.

(** *** Files that cannot be read *)

Lemma reverse_candidate_read target root name path :
  reverse_candidate fs target tests root name = Some path ->
  path = os_path_join root name /\ is_Some (read fs path).
Proof.
  unfold reverse_candidate. intros H.
  destruct (negb (Str.endswith ".java" name)); [discriminate|].
  destruct (negb tests && _); [discriminate|].
  destruct (read fs (os_path_join root name)) as [text|] eqn:Hr; [|discriminate].
  destruct (_ && _).
  - injection H as <-. rewrite Hr. eauto.
  - destruct (bool_decide _); [|discriminate].
    injection H as <-. rewrite Hr. eauto.
Qed.

Lemma reverse_matches_read target f :
  f ∈ reverse_matches fs repo target tests -> is_Some (read fs f).
Proof.
  unfold reverse_matches. rewrite elem_of_flat_map.
  intros ([[root dirs] files] & _ & Hf).
  apply list_elem_of_omap in Hf as (name & _ & Hc).
  now apply reverse_candidate_read in Hc as [_ ?].
Qed.

Lemma chain_read k target f :
  chain fs repo tests k target f -> is_Some (read fs f).
Proof.
  induction 1 as [target f Hf|]; [|assumption].
  eapply reverse_matches_read; eassumption.
Qed.

End TraversalFacts.

Lemma traverse_total (fs : FS) (order : SetOrder) (repo : string)
    (tests : bool) (limit : option Z) (target : string) (depth : Z) :
  exists res st',
    traverse fs order repo tests limit target depth = Some (res, st')
    /\ recursive_reverse_dependencies fs order repo tests limit target depth
       = res.
Proof.
  unfold recursive_reverse_dependencies, traverse.
  destruct (rrd_total fs order repo tests limit (S (Z.to_nat depth))
              target depth fresh 1) as [[res st'] H]; [lia|].
  exists res, st'. now rewrite H.
Qed.

Lemma fresh_consistent : consistent fresh.
Proof.
  split; simpl; [apply NoDup_nil_2|].
  intros p. rewrite elem_of_nil. set_solver.
Qed.

(** ** Termination *)

(** C10. Whatever the file system (with or without cycles of
    references), the target, the limit and the visited set the call
    starts from, a call returns once the call stack may be deeper than
    [depth], and with the same result however much deeper: every nested
    call runs at [depth - 1] ([rrd_unfold]) and a call at [depth <= 0]
    returns the empty list at once, state untouched. *)
Theorem traversal_terminates (fs : FS) (order : SetOrder) (repo : string)
    (tests : bool) (limit : option Z) (target : string) (depth : Z)
    (st : trav) (cur : Z) :
  exists res st',
    (forall fuel, (Z.to_nat depth < fuel)%nat ->
       rrd fs order repo tests limit fuel target depth st cur
       = Some (res, st'))
    /\ (depth <= 0 -> res = [] /\ st' = st).
Proof.
  destruct (rrd_total fs order repo tests limit (S (Z.to_nat depth))
              target depth st cur) as [[res st'] H]; [lia|].
  exists res, st'. split.
  - intros fuel Hfuel. eapply rrd_fuel_mono; [|exact H]. lia.
  - intros Hd. rewrite rrd_unfold in H.
    destruct (Z.leb_spec depth 0); [|lia]. now injection H as <- <-.
Qed.

(** The cycle of [cycle_repo] is walked to the depth asked for and no
    further. *)
Example cycle_terminates :
  recursive_reverse_dependencies (tree_fs cycle_repo) dedup_order "repo"
    false None "q.X" 3
  = ["repo/q/X.java"; "repo/q/Y.java"].
Proof. vm_compute. reflexivity. Qed.

(** ** Depth bound *)

(** C3. A depth of zero or less gives the empty list, and a file that
    every reverse-dependency chain from the target reaches in more than
    [depth] hops only is not in the result. *)
Theorem depth_bound (fs : FS) (order : SetOrder) (repo : string)
    (tests : bool) (limit : option Z) (target : string) (depth : Z) :
  (depth <= 0 ->
   recursive_reverse_dependencies fs order repo tests limit target depth = [])
  /\ (forall f,
        (forall k, chain fs repo tests k target f -> depth < Z.of_nat k) ->
        f ∉ recursive_reverse_dependencies fs order repo tests limit
              target depth).
Proof.
  destruct (traverse_total fs order repo tests limit target depth)
    as (res & st' & Ht & ->).
  unfold traverse in Ht. split.
  - intros Hd. rewrite rrd_unfold in Ht.
    destruct (Z.leb_spec depth 0); [|lia]. now injection Ht as <- _.
  - intros f Hfar Hf.
    destruct (rrd_sound _ _ _ _ _ _ _ _ _ _ _ _ Ht f Hf) as (k & _ & Hk & Hch).
    specialize (Hfar k Hch). lia.
Qed.

(** In the chain where [B] refers to [A], [C] to [B] and [D] to [C], a
    traversal from [A] of depth 2 returns [B] and [C], not [D]; depth 3
    reaches [D]; depth 0 and below return nothing. *)
Example depth_bound_chain :
  let rrd2 := recursive_reverse_dependencies (tree_fs chain_repo)
                dedup_order "repo" false None "p.A" in
  rrd2 2 = ["repo/src/main/java/p/B.java"; "repo/src/main/java/p/C.java"]
  /\ rrd2 3 = ["repo/src/main/java/p/B.java"; "repo/src/main/java/p/C.java";
               "repo/src/main/java/p/D.java"]
  /\ rrd2 0 = [] /\ rrd2 (-1) = [].
Proof. vm_compute. repeat split; reflexivity. Qed.

(** ** The limit *)

Lemma rrd_zero_limit (fs : FS) (order : SetOrder) (repo : string)
    (tests : bool) (fuel : nat) :
  forall target depth st cur,
    rrd fs order repo tests (Some 0) fuel target depth st cur
    = rrd fs order repo tests None fuel target depth st cur.
Proof.
  induction fuel as [|fuel IH]; intros target depth st cur; [reflexivity|].
  rewrite !rrd_unfold.
  destruct (depth <=? 0); [reflexivity|].
  destruct (bool_decide _); [reflexivity|].
  change (kept fs order repo tests (Some 0) target)
    with (kept fs order repo tests None target).
  erewrite expand_files_ext; [reflexivity|].
  intros fqn st'. apply IH.
Qed.

(** C9. A limit of [0] is no limit: the traversal is the one of
    [limit=None], call by call; with a positive depth every file the
    search finds for the target is in the result, and with a depth above
    one the type of every such file is expanded at the next level. *)
Theorem zero_limit_is_no_limit (fs : FS) (order : SetOrder) (repo : string)
    (tests : bool) (target : string) (depth : Z) :
  (forall fuel q d st cur,
      rrd fs order repo tests (Some 0) fuel q d st cur
      = rrd fs order repo tests None fuel q d st cur)
  /\ recursive_reverse_dependencies fs order repo tests (Some 0) target depth
     = recursive_reverse_dependencies fs order repo tests None target depth
  /\ exists res st',
       traverse fs order repo tests (Some 0) target depth = Some (res, st')
       /\ forall f,
            f ∈ find_reverse_dependencies fs order repo target tests ->
            (0 < depth -> f ∈ res)
            /\ (1 < depth -> forall q, fqn_of_file fs f = Some q ->
                  (q, 2) ∈ expanded st').
Proof.
  split; [intros; apply rrd_zero_limit|].
  split.
  { unfold recursive_reverse_dependencies, traverse.
    now rewrite rrd_zero_limit. }
  destruct (traverse_total fs order repo tests (Some 0) target depth)
    as (res & st' & Ht & _).
  exists res, st'. split; [exact Ht|].
  intros f Hf.
  pose proof (rrd_consistent _ _ _ _ _ _ _ _ _ _ _ _ fresh_consistent Ht)
    as [_ Hiff].
  unfold traverse in Ht. rewrite rrd_unfold in Ht.
  split; intros Hd.
  - destruct (Z.leb_spec depth 0); [lia|].
    simpl bool_decide in Ht.
    destruct (expand_files _ _ _ _ _) as [[results st1]|] eqn:Hx; [|discriminate].
    injection Ht as <- <-. apply (list_set_elem order).
    eapply expand_files_records; [exact Hx|]. now right.
  - intros q Hq. apply Hiff.
    destruct (Z.leb_spec depth 0); [lia|].
    simpl bool_decide in Ht.
    destruct (expand_files _ _ _ _ _) as [[results st1]|] eqn:Hx; [|discriminate].
    injection Ht as <- <-.
    eapply (expand_files_marks fs order repo tests (Some 0) _ (depth - 1) (1 + 1));
      [lia|exact Hx|exact Hf|exact Hq].
Qed.

(** With limits [0] and [None] the three files that refer to [T] are all
    recorded. *)
Example zero_limit_fan :
  let rrd1 limit := recursive_reverse_dependencies (tree_fs fan_repo)
                      dedup_order "repo" false limit "p.T" 2 in
  rrd1 (Some 0) = ["repo/p/U1.java"; "repo/p/U2.java"; "repo/p/U3.java"]
  /\ rrd1 None = ["repo/p/U1.java"; "repo/p/U2.java"; "repo/p/U3.java"].
Proof. vm_compute. split; reflexivity. Qed.

(** The first level of a traversal with a limit: the result holds the
    kept candidates and what their expansions return. *)
Lemma rrd_first_level (fs : FS) (order : SetOrder) (repo : string)
    (tests : bool) (limit : option Z) (fuel : nat) (target : string)
    (depth : Z) (st : trav) (cur : Z) (res : list string) (st' : trav) :
  0 < depth ->
  (target, cur) ∉ visited st ->
  rrd fs order repo tests limit fuel target depth st cur = Some (res, st') ->
  (forall f, f ∈ kept fs order repo tests limit target -> f ∈ res)
  /\ (forall f, f ∈ res ->
        f ∈ kept fs order repo tests limit target
        \/ exists g fqn k,
             g ∈ kept fs order repo tests limit target
             /\ fqn_of_file fs g = Some fqn
             /\ (1 <= k)%nat /\ Z.of_nat k <= depth - 1
             /\ chain fs repo tests k fqn f).
Proof.
  intros Hd Hnew H. destruct fuel as [|fuel]; [discriminate|].
  rewrite rrd_unfold in H.
  destruct (Z.leb_spec depth 0); [lia|].
  destruct (bool_decide_reflect ((target, cur) ∈ visited st)); [contradiction|].
  destruct (expand_files _ _ _ _ _) as [[results st1]|] eqn:Hx; [|discriminate].
  injection H as <- <-. split.
  - intros f Hf. apply (list_set_elem order).
    eapply expand_files_records; [exact Hx|]. now right.
  - intros f Hf. apply (proj1 (list_set_elem order _ _)) in Hf. revert f Hf.
    refine (expand_files_invariant fs
              (fun rs _ => forall f, f ∈ rs ->
                 f ∈ kept fs order repo tests limit target
                 \/ exists g fqn k,
                      g ∈ kept fs order repo tests limit target
                      /\ fqn_of_file fs g = Some fqn
                      /\ (1 <= k)%nat /\ Z.of_nat k <= depth - 1
                      /\ chain fs repo tests k fqn f)
              _ _ _ _ _ _ _ _ _ Hx).
    + intros g rs s Hg HP f Hf. apply elem_of_app in Hf as [Hf|Hf]; [auto|].
      apply list_elem_of_singleton in Hf as ->. now left.
    + intros g fqn rs s sub s' Hg Hq HP Hc f Hf.
      apply elem_of_app in Hf as [Hf|Hf]; [auto|].
      destruct (rrd_sound _ _ _ _ _ _ _ _ _ _ _ _ Hc f Hf) as (k & Hk1 & Hk2 & Hch).
      right. exists g, fqn, k. auto.
    + intros f Hf. now apply elem_of_nil in Hf.
Qed.

Lemma slice_to_length {A : Type} (l : list A) (n : Z) :
  0 < n -> Z.of_nat (length (slice_to l n)) <= n.
Proof.
  intros Hn. unfold slice_to. destruct (Z.leb_spec 0 n); [|lia].
  rewrite length_take. lia.
Qed.

(** C2, as the code has it. A limit [n] other than zero cuts the list
    of candidates before the loop that records and expands: with a
    positive depth the result holds the candidates kept, [files[:n]],
    and beyond them only what the expansions of kept candidates return;
    the types expanded at the second level are types of kept candidates;
    and a positive [n] keeps at most [n] candidates. *)
Theorem limit_cuts_before_recording (fs : FS) (order : SetOrder)
    (repo : string) (tests : bool) (n : Z) (target : string) (depth : Z) :
  n <> 0 ->
  0 < depth ->
  let files :=
    slice_to (find_reverse_dependencies fs order repo target tests) n in
  exists res st',
    traverse fs order repo tests (Some n) target depth = Some (res, st')
    /\ recursive_reverse_dependencies fs order repo tests (Some n)
         target depth = res
    /\ (forall f, f ∈ files -> f ∈ res)
    /\ (forall f, f ∈ res ->
          f ∈ files
          \/ exists g fqn k,
               g ∈ files /\ fqn_of_file fs g = Some fqn
               /\ (1 <= k)%nat /\ Z.of_nat k <= depth - 1
               /\ chain fs repo tests k fqn f)
    /\ (forall q, (q, 2) ∈ expanded st' ->
          exists g, g ∈ files /\ fqn_of_file fs g = Some q)
    /\ (0 < n -> Z.of_nat (length files) <= n).
Proof.
  intros Hn Hd files.
  assert (Hkept : kept fs order repo tests (Some n) target = files).
  { unfold kept, apply_limit. destruct (Z.eqb_spec n 0); [contradiction|].
    reflexivity. }
  destruct (traverse_total fs order repo tests (Some n) target depth)
    as (res & st' & Ht & Hr).
  exists res, st'. split; [exact Ht|]. split; [exact Hr|].
  unfold traverse in Ht.
  destruct (rrd_first_level _ _ _ _ _ _ _ _ _ _ _ _ Hd
              (not_elem_of_empty _) Ht) as [Hrec Hsub].
  rewrite Hkept in Hrec, Hsub.
  split; [exact Hrec|]. split; [exact Hsub|].
  split; [|apply slice_to_length].
  intros q Hq.
  destruct (rrd_history _ _ _ _ _ _ _ _ _ _ _ _ Ht) as (new & Hnew & Hall).
  simpl in Hnew. rewrite Hnew in Hq.
  destruct (Hall q 2 Hq) as [[Hc _]|[[_ (g & Hg & Hgq)]|Hc]]; [lia| |lia].
  rewrite Hkept in Hg. eauto.
Qed.

(** The theorem at [fan_repo] with [limit=1] and depth 2: one of the
    three files that refer to [T] is recorded and the result has nothing
    else. *)
Lemma limit_cuts_before_recording_witness :
  recursive_reverse_dependencies (tree_fs fan_repo) dedup_order "repo"
    false (Some 1) "p.T" 2 = ["repo/p/U1.java"]
  /\ exists res st',
       traverse (tree_fs fan_repo) dedup_order "repo" false (Some 1) "p.T" 2
       = Some (res, st')
       /\ forall q, (q, 2) ∈ expanded st' -> q = "p.U1".
Proof.
  split; [vm_compute; reflexivity|].
  destruct (limit_cuts_before_recording (tree_fs fan_repo) dedup_order "repo"
              false 1 "p.T" 2)
    as (res & st' & Ht & _ & _ & _ & Hexp & _); [lia|lia|].
  exists res, st'. split; [exact Ht|].
  intros q Hq. destruct (Hexp q Hq) as (g & Hg & Hgq).
  vm_compute in Hg. apply list_elem_of_singleton in Hg as ->.
  vm_compute in Hgq. now injection Hgq as <-.
Defined.

(** C2 as stated fails: [fan_repo] has three files that refer to [T];
    with [limit=1] the result of a traversal of depth 2 is one file, and
    the other two are not in it. *)
Lemma limit_counterexample :
  find_reverse_dependencies (tree_fs fan_repo) dedup_order "repo" "p.T" false
  = ["repo/p/U1.java"; "repo/p/U2.java"; "repo/p/U3.java"]
  /\ recursive_reverse_dependencies (tree_fs fan_repo) dedup_order "repo"
       false (Some 1) "p.T" 2 = ["repo/p/U1.java"]
  /\ ~ records_all_candidates (tree_fs fan_repo) dedup_order "repo" false
         (Some 1) "p.T" 2.
Proof.
  split; [vm_compute; reflexivity|]. split; [vm_compute; reflexivity|].
  intros H. specialize (H "repo/p/U2.java").
  assert (Hin : "repo/p/U2.java"
                ∈ find_reverse_dependencies (tree_fs fan_repo) dedup_order
                    "repo" "p.T" false) by (vm_compute; find_elem).
  apply H in Hin. vm_compute in Hin.
  apply list_elem_of_singleton in Hin. discriminate.
Qed.

(** ** Files that cannot be read *)

(** In [broken_repo] the file [B.java] cannot be read; the search for
    [A] passes over it and still finds [C.java] behind it. *)
Example unreadable_sibling :
  read (tree_fs broken_repo) "repo/p/B.java" = None
  /\ find_reverse_dependencies (tree_fs broken_repo) dedup_order "repo"
       "p.A" false = ["repo/p/C.java"]
  /\ recursive_reverse_dependencies (tree_fs broken_repo) dedup_order "repo"
       false None "p.A" 3 = ["repo/p/C.java"].
Proof. vm_compute. repeat split; reflexivity. Qed.

(** ** Revisits *)

(** C1, as the code has it. The visited set is keyed by the pair of
    type name and level: a call whose pair is in the set returns at once
    without a search and without a change of state, and in a traversal
    from a fresh set no pair is expanded twice, the history listing
    exactly the pairs of the visited set. *)
Theorem pair_expanded_once (fs : FS) (order : SetOrder) (repo : string)
    (tests : bool) (limit : option Z) (target : string) (depth : Z) :
  (forall fuel q d st cur,
      (q, cur) ∈ visited st ->
      rrd fs order repo tests limit (S fuel) q d st cur = Some ([], st))
  /\ exists res st',
       traverse fs order repo tests limit target depth = Some (res, st')
       /\ NoDup (expanded st')
       /\ forall p, p ∈ expanded st' <-> p ∈ visited st'.
Proof.
  split.
  - intros fuel q d st cur Hin. rewrite rrd_unfold.
    destruct (d <=? 0); [reflexivity|].
    now rewrite bool_decide_eq_true_2.
  - destruct (traverse_total fs order repo tests limit target depth)
      as (res & st' & Ht & _).
    exists res, st'. split; [exact Ht|].
    exact (rrd_consistent _ _ _ _ _ _ _ _ _ _ _ _ fresh_consistent Ht).
Qed.

(** C1 as stated fails: in [cycle_repo], where [X] and [Y] refer to each
    other, a traversal of depth 3 from [X] expands [X] at level 1 and
    again at level 3. *)
Lemma revisit_counterexample :
  exists res st',
    traverse (tree_fs cycle_repo) dedup_order "repo" false None "q.X" 3
    = Some (res, st')
    /\ expanded st' = [("q.X", 1); ("q.Y", 2); ("q.X", 3)]
    /\ ~ fqn_expanded_once st'.
Proof.
  destruct (traverse_total (tree_fs cycle_repo) dedup_order "repo" false None
              "q.X" 3) as (res & st' & Ht & _).
  exists res, st'. split; [exact Ht|].
  assert (He : expanded st' = [("q.X", 1); ("q.Y", 2); ("q.X", 3)]).
  { vm_compute in Ht. now injection Ht as _ <-. }
  split; [exact He|].
  unfold fqn_expanded_once. rewrite He. simpl.
  intros H. apply NoDup_cons in H as [Hnot _].
  apply Hnot. find_elem.
Qed.

(** ** Deduplication of the bundle *)

Section AssemblyFacts.

Context (fs : FS) (order : SetOrder) (repo : string) (depth : Z)
        (tests : bool) (limit : option Z).

Lemma emit_tidy k body path b b' :
  tidy b -> emit fs k body path b = Some b' -> tidy b'.
Proof.
  intros [Hnd Hseen] H. unfold emit in H.
  destruct (bool_decide_reflect (path ∈ seen_files b)) as [Hin|Hin].
  { injection H as <-. now split. }
  destruct (read fs path) as [src|]; [|discriminate].
  injection H as <-. split; simpl.
  - rewrite map_app. simpl. apply NoDup_app.
    repeat split; [assumption| |apply NoDup_singleton].
    intros x Hx Hx'. apply list_elem_of_singleton in Hx' as ->.
    apply elem_of_map in Hx as (c & Hc & ->).
    apply Hin. now apply Hseen.
  - intros c Hc. apply elem_of_app in Hc as [Hc|Hc].
    + apply Hseen in Hc. set_solver.
    + apply list_elem_of_singleton in Hc as ->. simpl. set_solver.
Qed.

Lemma emit_all_tidy k body :
  forall paths b b',
    tidy b -> emit_all fs k body paths b = Some b' -> tidy b'.
Proof.
  induction paths as [|p paths IH]; intros b b' Hb H; simpl in H.
  - now injection H as <-.
  - destruct (emit fs k body p b) as [b1|] eqn:He; [|discriminate].
    simpl in H. eapply IH; [|exact H]. eapply emit_tidy; eassumption.
Qed.

Lemma emit_imports_tidy :
  forall imports b b',
    tidy b -> emit_imports fs repo imports b = Some b' -> tidy b'.
Proof.
  induction imports as [|imp imports IH]; intros b b' Hb H; simpl in H.
  - now injection H as <-.
  - destruct (emit_all fs _ _ _ b) as [b1|] eqn:He; [|discriminate].
    simpl in H. eapply IH; [|exact H]. eapply emit_all_tidy; eassumption.
Qed.

Lemma process_target_tidy target b b' :
  tidy b ->
  process_target fs order repo depth tests limit target b = Some b' ->
  tidy b'.
Proof.
  intros Hb H. unfold process_target in H.
  destruct (negb (exists_ fs _)); [now injection H as <-|].
  destruct (read fs _) as [code|]; [|discriminate]. simpl in H.
  destruct (emit_imports fs repo _ b) as [b1|] eqn:H1; [|discriminate].
  apply emit_imports_tidy in H1; [|assumption]. simpl in H.
  destruct (emit_all fs EXTENDS_IMPLEMENTS _ _ b1) as [b2|] eqn:H2;
    [|discriminate].
  apply emit_all_tidy in H2; [|assumption]. simpl in H.
  match type of H with
  | (?rev ≫= _) = _ => destruct rev as [b3|] eqn:H3; [|discriminate]
  end.
  assert (Hb3 : tidy b3).
  { destruct (search PACKAGE_RE code), (search TYPE_RE code); simpl in H3;
      try (now injection H3 as <-).
    destruct (_ && _); [|now injection H3 as <-].
    destruct (Str.truthy _); [|now injection H3 as <-].
    eapply emit_all_tidy; eassumption. }
  simpl in H.
  destruct (search TYPE_RE code); simpl in H; [|now injection H as <-].
  destruct (Str.truthy _); [|now injection H as <-].
  eapply emit_all_tidy; eassumption.
Qed.

Lemma process_targets_tidy :
  forall targets b b',
    tidy b ->
    process_targets fs order repo depth tests limit targets b = Some b' ->
    tidy b'.
Proof.
  induction targets as [|t targets IH]; intros b b' Hb H; simpl in H.
  - now injection H as <-.
  - destruct (process_target _ _ _ _ _ _ t b) as [b1|] eqn:Ht; [|discriminate].
    simpl in H. eapply IH; [|exact H]. eapply process_target_tidy; eassumption.
Qed.

End AssemblyFacts.

Lemma empty_bundle_tidy : tidy empty_bundle.
Proof.
  split; simpl; [apply NoDup_nil_2|].
  intros c Hc. now apply elem_of_nil in Hc.
Qed.

(** C4. In the bundle that a run over any list of target files builds,
    no two chunks carry the same path, whatever target or category
    first emitted it; and the path of every chunk is in [seen_files]. *)
Theorem no_path_emitted_twice (fs : FS) (order : SetOrder) (repo : string)
    (depth : Z) (tests : bool) (limit : option Z) (targets : list string)
    (b : bundle) :
  prepare_context_multi fs order repo depth tests limit targets = Some b ->
  NoDup (map chunk_path (output_chunks b))
  /\ forall c, c ∈ output_chunks b -> chunk_path c ∈ seen_files b.
Proof.
  intros H. eapply process_targets_tidy; [|exact H]. apply empty_bundle_tidy.
Qed.

(** The theorem at [bundle_repo] with targets [B.java], [C.java] and a
    missing file: [A.java] is emitted once although both targets import
    it and [B] extends it, and [C.java] once although it is a reverse
    dependency of [B] and its configuration. *)
Lemma no_path_emitted_twice_witness :
  exists b,
    prepare_context_multi (tree_fs bundle_repo) dedup_order "repo" 2 false None
      ["src/main/java/p/B.java"; "src/main/java/p/C.java";
       "src/main/java/p/Missing.java"] = Some b
    /\ map (fun c => (chunk_kind c, chunk_path c)) (output_chunks b)
       = [(IMPORT "p.A", "repo/src/main/java/p/A.java");
          (REVERSE_DEPENDENCY, "repo/src/main/java/p/B.java");
          (REVERSE_DEPENDENCY, "repo/src/main/java/p/C.java")]
    /\ NoDup (map chunk_path (output_chunks b)).
Proof.
  destruct (prepare_context_multi (tree_fs bundle_repo) dedup_order "repo" 2
              false None
              ["src/main/java/p/B.java"; "src/main/java/p/C.java";
               "src/main/java/p/Missing.java"]) as [b|] eqn:Hb;
    [|vm_compute in Hb; discriminate].
  exists b. split; [reflexivity|].
  split; [|exact (proj1 (no_path_emitted_twice _ _ _ _ _ _ _ _ Hb))].
  vm_compute in Hb. now injection Hb as <-.
Defined.

(** * Further properties of the code *)

(** ** What a traversal without limit returns *)

Section Coverage.

Context (fs : FS) (order : SetOrder) (repo : string) (tests : bool).

Lemma chain_pos k target f :
  chain fs repo tests k target f -> (1 <= k)%nat.
Proof. destruct 1; lia. Qed.

(** The pairs a call adds to the visited set: its own, and pairs of
    deeper levels. *)
Lemma rrd_visited_levels limit fuel :
  forall target depth st cur res st',
    rrd fs order repo tests limit fuel target depth st cur = Some (res, st') ->
    forall q l, (q, l) ∈ visited st' ->
      (q, l) ∈ visited st \/ (l = cur /\ q = target) \/ cur + 1 <= l.
Proof.
  induction fuel as [|fuel IH]; intros target depth st cur res st' H;
    [discriminate|].
  rewrite rrd_unfold in H.
  destruct (depth <=? 0); [injection H as <- <-; auto|].
  destruct (bool_decide _); [injection H as <- <-; auto|].
  destruct (expand_files _ _ _ _ _) as [[results st1]|] eqn:Hx; [|discriminate].
  injection H as <- <-.
  refine (expand_files_invariant fs
            (fun _ s => forall q l, (q, l) ∈ visited s ->
               (q, l) ∈ visited st \/ (l = cur /\ q = target) \/ cur + 1 <= l)
            _ _ _ _ _ _ _ _ _ Hx).
  - auto.
  - intros g fqn rs s sub s' _ _ HP Hc q l Hin.
    destruct (IH _ _ _ _ _ _ Hc q l Hin) as [Hold|[[-> _]|Hl]]; [auto| |].
    + right; right. lia.
    + right; right. lia.
  - intros q l Hin. simpl in Hin.
    apply elem_of_union in Hin as [Hin|Hin]; [|auto].
    apply elem_of_singleton in Hin. injection Hin as -> ->. auto.
Qed.

Lemma covered_weaken D V (S S' : string -> Prop) L :
  (forall f, S f -> S' f) ->
  covered fs repo tests D V S L -> covered fs repo tests D V S' L.
Proof. intros HS H q l k f Hin HL Hk Hch. apply HS. eauto. Qed.

(** Without a limit a call leaves every pair of its level and below
    covered by what was covered before and by its own result. *)
Lemma rrd_covers fuel :
  forall target depth st cur res st' (S0 : string -> Prop),
    rrd fs order repo tests None fuel target depth st cur = Some (res, st') ->
    covered fs repo tests (depth + cur) (visited st) S0 cur ->
    covered fs repo tests (depth + cur) (visited st')
            (fun f => S0 f \/ f ∈ res) cur.
Proof.
  induction fuel as [|fuel IH]; intros target depth st cur res st' S0 H Hpre;
    [discriminate|].
  pose proof (rrd_visited_levels _ _ _ _ _ _ _ _ H) as Hlev.
  rewrite rrd_unfold in H.
  destruct (Z.leb_spec depth 0) as [Hd|Hd].
  { injection H as <- <-. eapply covered_weaken; [|exact Hpre]. auto. }
  destruct (bool_decide _).
  { injection H as <- <-. eapply covered_weaken; [|exact Hpre]. auto. }
  destruct (expand_files _ _ _ _ _) as [[results st1]|] eqn:Hx; [|discriminate].
  injection H as <- <-.
  assert (Hloop : covered fs repo tests (depth + cur) (visited st1)
                    (fun f => S0 f \/ f ∈ results) (cur + 1)).
  { refine (expand_files_invariant fs
              (fun rs s => covered fs repo tests (depth + cur) (visited s)
                             (fun f => S0 f \/ f ∈ rs) (cur + 1))
              _ _ _ _ _ _ _ _ _ Hx).
    - intros g rs s _ HP. eapply covered_weaken; [|exact HP].
      intros f [Hf|Hf]; [auto|]. right. apply elem_of_app. auto.
    - intros g fqn rs s sub s' _ _ HP Hc.
      apply (IH _ _ _ _ _ _ (fun f => S0 f \/ f ∈ rs)) in Hc.
      + replace (depth - 1 + (cur + 1)) with (depth + cur) in Hc by lia.
        eapply covered_weaken; [|exact Hc].
        intros f [[Hf|Hf]|Hf]; [auto| |]; right; apply elem_of_app; auto.
      + replace (depth - 1 + (cur + 1)) with (depth + cur) by lia. exact HP.
    - intros q l k f Hin HL Hk Hch. simpl in Hin.
      apply elem_of_union in Hin as [Hin|Hin].
      + apply elem_of_singleton in Hin. injection Hin as -> ->. lia.
      + left. apply (Hpre q l k f); auto. lia. }
  intros q l k f Hin HL Hk Hch.
  assert (Hres : S0 f \/ f ∈ results -> S0 f \/ f ∈ order results).
  { intros [Hf|Hf]; [auto|]. right. now apply (list_set_elem order). }
  apply Hres.
  destruct (Hlev q l Hin) as [Hold|[[-> ->]|Hl]].
  - left. eapply Hpre; eassumption.
  - destruct Hch as [target f Hf|k target g fqn f Hg Hq Hch].
    + right. eapply expand_files_records; [exact Hx|]. right.
      unfold kept, apply_limit, find_reverse_dependencies.
      now apply (list_set_elem order).
    + pose proof (chain_pos _ _ _ Hch) as Hk1.
      assert (Hgk : g ∈ kept fs order repo tests None target).
      { unfold kept, apply_limit, find_reverse_dependencies.
        now apply (list_set_elem order). }
      assert (Hv : (fqn, cur + 1) ∈ visited st1).
      { eapply (expand_files_marks fs order repo tests None fuel (depth - 1)
                  (cur + 1)); [lia|exact Hx|exact Hgk|exact Hq]. }
      apply (Hloop fqn (cur + 1) k f Hv); [lia|lia|exact Hch].
  - apply (Hloop q l k f Hin); [lia|exact Hk|exact Hch].
Qed.

End Coverage.

Lemma reachable_iff_returned (fs : FS) (order : SetOrder)
    (repo : string) (tests : bool) (target : string) (depth : Z) (f : string) :
  f ∈ recursive_reverse_dependencies fs order repo tests None target depth
  <-> exists k, (1 <= k)%nat /\ Z.of_nat k <= depth
                /\ chain fs repo tests k target f.
Proof.
  destruct (traverse_total fs order repo tests None target depth)
    as (res & st' & Ht & ->).
  unfold traverse in Ht. split.
  - intros Hf. eapply rrd_sound; eassumption.
  - intros (k & Hk1 & Hk & Hch).
    assert (Hcov : covered fs repo tests (depth + 1) (visited st')
                     (fun f => False \/ f ∈ res) 1).
    { eapply rrd_covers; [exact Ht|].
      intros q l k' f' Hin. simpl in Hin. now apply not_elem_of_empty in Hin. }
    assert (Hv : (target, 1) ∈ visited st').
    { eapply rrd_marks; [|exact Ht]. lia. }
    destruct (Hcov target 1 k f Hv) as [[]|Hf]; [lia|lia|exact Hch|exact Hf].
Qed.


(** X2. Without a limit a larger depth never loses a file. *)
Theorem unlimited_traversal_grows_with_depth (fs : FS) (order : SetOrder)
    (repo : string) (tests : bool) (target : string) (d d' : Z) (f : string) :
  d <= d' ->
  f ∈ recursive_reverse_dependencies fs order repo tests None target d ->
  f ∈ recursive_reverse_dependencies fs order repo tests None target d'.
Proof.
  intros Hd Hf. apply reachable_iff_returned in Hf
    as (k & Hk1 & Hk & Hch).
  apply reachable_iff_returned. exists k. repeat split; auto. lia.
Qed.

Lemma unlimited_traversal_grows_with_depth_witness :
  "repo/src/main/java/p/C.java"
  ∈ recursive_reverse_dependencies (tree_fs chain_repo) dedup_order "repo"
      false None "p.A" 7.
Proof.
  apply (unlimited_traversal_grows_with_depth _ _ _ _ _ 2 7); [lia|].
  vm_compute. find_elem.
Defined.

Lemma recursive_reverse_dependencies_nodup (fs : FS) (order : SetOrder)
    (repo : string) (tests : bool) (limit : option Z) (target : string)
    (depth : Z) :
  NoDup (recursive_reverse_dependencies fs order repo tests limit target depth).
Proof.
  destruct (traverse_total fs order repo tests limit target depth)
    as (res & st' & Ht & ->).
  unfold traverse in Ht. rewrite rrd_unfold in Ht.
  destruct (depth <=? 0); [injection Ht as <- _; apply NoDup_nil_2|].
  destruct (bool_decide _); [injection Ht as <- _; apply NoDup_nil_2|].
  destruct (expand_files _ _ _ _ _) as [[results st1]|]; [|discriminate].
  injection Ht as <- _. apply list_set_nodup.
Qed.

(** X3. Without a limit the result does not depend on the order in which
    [list(set(...))] lists its elements: two runs that differ in that
    order only return the same files, each once. *)
Theorem unlimited_traversal_ignores_set_order (fs : FS)
    (order1 order2 : SetOrder) (repo : string) (tests : bool)
    (target : string) (depth : Z) :
  recursive_reverse_dependencies fs order1 repo tests None target depth
  ≡ₚ recursive_reverse_dependencies fs order2 repo tests None target depth.
Proof.
  apply NoDup_Permutation;
    [apply recursive_reverse_dependencies_nodup
    |apply recursive_reverse_dependencies_nodup|].
  intros f. now rewrite !reachable_iff_returned.
Qed.

(** X4. With a limit the result does depend on that order: in
    [fan_repo] with [limit=1] one order records [U1.java] and the
    opposite order [U3.java]. *)
Theorem limited_traversal_depends_on_set_order :
  exists (fs : FS) (order1 order2 : SetOrder) (f : string),
    f ∈ recursive_reverse_dependencies fs order1 "repo" false (Some 1) "p.T" 2
    /\ f ∉ recursive_reverse_dependencies fs order2 "repo" false (Some 1)
             "p.T" 2.
Proof.
  exists (tree_fs fan_repo), dedup_order, reversed_order, "repo/p/U1.java".
  split; [vm_compute; find_elem|].
  intros H. vm_compute in H.
  apply list_elem_of_singleton in H. discriminate.
Qed.

(** ** The size of a limited traversal *)

Lemma list_set_length (order : SetOrder) (l : list string) :
  (length (order l) <= length l)%nat.
Proof.
  apply submseteq_length, NoDup_submseteq; [apply list_set_nodup|].
  intros x. apply list_set_elem.
Qed.

Lemma expand_files_length (fs : FS) call (B : nat) :
  (forall fqn s sub s', call fqn s = Some (sub, s') -> (length sub <= B)%nat) ->
  forall files results st res st',
    expand_files fs call files results st = Some (res, st') ->
    (length res <= length results + length files * (1 + B))%nat.
Proof.
  intros Hcall. induction files as [|f files IH]; intros results st res st' H;
    simpl in H.
  - injection H as <- _. simpl. lia.
  - destruct (fqn_of_file fs f) as [fqn|].
    + destruct (call fqn st) as [[sub st1]|] eqn:Hc; [|discriminate].
      apply IH in H. apply Hcall in Hc.
      rewrite !length_app in H. simpl in *. lia.
    + apply IH in H. rewrite length_app in H. simpl in *. lia.
Qed.

Lemma rrd_bounded (fs : FS) (order : SetOrder) (repo : string) (tests : bool)
    (n : Z) (fuel : nat) :
  0 < n ->
  forall target depth st cur res st',
    rrd fs order repo tests (Some n) fuel target depth st cur = Some (res, st') ->
    (length res <= fan_bound (Z.to_nat n) (Z.to_nat depth))%nat.
Proof.
  intros Hn. induction fuel as [|fuel IH];
    intros target depth st cur res st' H; [discriminate|].
  rewrite rrd_unfold in H.
  destruct (Z.leb_spec depth 0) as [Hd|Hd].
  { injection H as <- _. simpl. lia. }
  destruct (bool_decide _).
  { injection H as <- _. simpl. lia. }
  destruct (expand_files _ _ _ _ _) as [[results st1]|] eqn:Hx; [|discriminate].
  injection H as <- _.
  apply (expand_files_length fs _ (fan_bound (Z.to_nat n) (Z.to_nat (depth - 1))))
    in Hx; [|intros fqn s sub s' Hc; eapply IH; exact Hc].
  pose proof (list_set_length order results) as Hlen.
  assert (Hfiles : (length (kept fs order repo tests (Some n) target)
                    <= Z.to_nat n)%nat).
  { unfold kept, apply_limit. destruct (Z.eqb_spec n 0); [lia|].
    pose proof (slice_to_length
                  (find_reverse_dependencies fs order repo target tests) n Hn).
    lia. }
  replace (Z.to_nat depth) with (S (Z.to_nat (depth - 1))) by lia.
  cbn [fan_bound].
  set (B := fan_bound (Z.to_nat n) (Z.to_nat (depth - 1))) in *.
  pose proof (Nat.mul_le_mono_r _ _ (1 + B) Hfiles) as Hmul.
  change (length (@nil string)) with O in Hx. lia.
Qed.

(** X5. A positive limit [n] bounds the size of the result: a traversal
    of depth [d] returns at most [n + n^2 + ... + n^d] paths, however
    many files refer to the target. *)
Theorem limit_bounds_result (fs : FS) (order : SetOrder) (repo : string)
    (tests : bool) (n : Z) (target : string) (depth : Z) :
  0 < n ->
  (length (recursive_reverse_dependencies fs order repo tests (Some n)
             target depth)
   <= fan_bound (Z.to_nat n) (Z.to_nat depth))%nat.
Proof.
  intros Hn.
  destruct (traverse_total fs order repo tests (Some n) target depth)
    as (res & st' & Ht & ->).
  eapply rrd_bounded; eassumption.
Qed.

Lemma limit_bounds_result_witness :
  (length (recursive_reverse_dependencies (tree_fs fan_repo) dedup_order
             "repo" false (Some 2%Z) "p.T" 1%Z) <= 2)%nat.
Proof.
  exact (limit_bounds_result (tree_fs fan_repo) dedup_order "repo" false 2
           "p.T" 1 eq_refl).
Defined.

(** ** The matcher *)

Lemma run_Star {R : Type} (greedy : bool) (r : regex) (c : cursor) (g : caps)
    (k : cursor -> caps -> option R) :
  run (Star greedy r) c g k
  = star_iter (fun c g k => run r c g k) greedy k (Str.len (rest c)) c g.
Proof. reflexivity. Qed.

Lemma drop_drop (n m : nat) (s : string) :
  Str.drop n (Str.drop m s) = Str.drop (m + n) s.
Proof.
  revert s. induction m as [|m IH]; intros s; [reflexivity|].
  destruct s as [|a s]; simpl; [now destruct n | apply IH].
Qed.

Lemma reaches_refl (c : cursor) : reaches c c.
Proof. exists O. split; [lia | reflexivity]. Qed.

Lemma reaches_trans (c1 c2 c3 : cursor) :
  reaches c1 c2 -> reaches c2 c3 -> reaches c1 c3.
Proof.
  intros (n & Hp & Hr) (m & Hp' & Hr'). exists (n + m)%nat. split; [lia|].
  now rewrite Hr', Hr, drop_drop.
Qed.

Lemma reaches_step (a : ascii) (s : string) (c : cursor) :
  rest c = String a s -> reaches c (step a s c).
Proof. intros H. exists 1%nat. simpl. rewrite H. split; [lia | reflexivity]. Qed.

(** A successful run hands to its continuation a cursor at or after the
    one it started from. *)
Lemma run_reaches {R : Type} (r : regex) :
  forall (c : cursor) (g : caps) (k : cursor -> caps -> option R) (x : R),
    run r c g k = Some x ->
    exists c' g', reaches c c' /\ k c' g' = Some x.
Proof.
  induction r as [|p|r1 IH1 r2 IH2|r1 IH1 r2 IH2|greedy r IH|n r IH| | |];
    intros c g k x H.
  - exists c, g. split; [apply reaches_refl | exact H].
  - simpl in H. destruct (rest c) as [|a s] eqn:Hr; [discriminate|].
    destruct (p a); [|discriminate].
    exists (step a s c), g. split; [now apply reaches_step | exact H].
  - simpl in H. apply IH1 in H as (c1 & g1 & Hc1 & H).
    apply IH2 in H as (c2 & g2 & Hc2 & H).
    exists c2, g2. split; [eapply reaches_trans; eassumption | exact H].
  - simpl in H. destruct (run r1 c g k) eqn:H1.
    + injection H as ->. now apply IH1 in H1.
    + now apply IH2 in H.
  - rewrite run_Star in H. revert H. generalize (Str.len (rest c)).
    intros fuel. revert c g x.
    induction fuel as [|fuel IHf]; intros c g x H; simpl in H.
    + exists c, g. split; [apply reaches_refl | exact H].
    + assert (Hbody : forall y,
                 run r c g (fun c' g' =>
                   if (pos c' =? pos c)%nat then None
                   else star_iter (fun c g k => run r c g k) greedy k fuel c' g')
                 = Some y ->
                 exists c' g', reaches c c' /\ k c' g' = Some y).
      { intros y Hy. apply IH in Hy as (c1 & g1 & Hc1 & Hy).
        destruct (pos c1 =? pos c)%nat; [discriminate|].
        apply IHf in Hy as (c2 & g2 & Hc2 & Hy).
        exists c2, g2. split; [eapply reaches_trans; eassumption | exact Hy]. }
      destruct greedy.
      * destruct (run r c g _) eqn:Hb.
        -- injection H as ->. now apply Hbody.
        -- exists c, g. split; [apply reaches_refl | exact H].
      * destruct (k c g) eqn:Hk.
        -- injection H as ->. exists c, g.
           split; [apply reaches_refl | exact Hk].
        -- now apply Hbody.
  - simpl in H. apply IH in H as (c1 & g1 & Hc1 & H). eauto.
  - simpl in H. destruct (at_bol c); [|discriminate].
    exists c, g. split; [apply reaches_refl | exact H].
  - simpl in H. destruct (at_eol multiline c); [|discriminate].
    exists c, g. split; [apply reaches_refl | exact H].
  - simpl in H. destruct (xorb _ _); [|discriminate].
    exists c, g. split; [apply reaches_refl | exact H].
Qed.

(** Whether a run succeeds does not depend on the groups recorded so
    far, as long as that holds of its continuation. *)
Lemma run_any_caps {R1 R2 : Type} (r : regex) :
  forall (c : cursor) (g1 g2 : caps)
         (k1 : cursor -> caps -> option R1) (k2 : cursor -> caps -> option R2),
    (forall c' g1' g2', is_Some (k1 c' g1') -> is_Some (k2 c' g2')) ->
    is_Some (run r c g1 k1) -> is_Some (run r c g2 k2).
Proof.
  induction r as [|p|r1 IH1 r2 IH2|r1 IH1 r2 IH2|greedy r IH|n r IH| | |];
    intros c g1 g2 k1 k2 Hk H.
  - simpl in *. eauto.
  - simpl in *. destruct (rest c) as [|a s]; [destruct H; discriminate|].
    destruct (p a); [eauto | destruct H; discriminate].
  - simpl in *. eapply IH1; [|exact H].
    intros c' g1' g2'. apply IH2. exact Hk.
  - simpl in *.
    destruct (run r1 c g1 k1) eqn:H1.
    + assert (Hs : is_Some (run r1 c g2 k2)).
      { eapply IH1; [exact Hk|]. rewrite H1. eauto. }
      destruct Hs as [y ->]. eauto.
    + destruct (run r1 c g2 k2); [eauto|]. eapply IH2; eassumption.
  - rewrite !run_Star in *. revert H. generalize (Str.len (rest c)).
    intros fuel. revert c g1 g2.
    induction fuel as [|fuel IHf]; intros c g1 g2 H; simpl in *.
    + exact (Hk _ _ _ H).
    + assert (Hbody :
          is_Some (run r c g1 (fun c' g' =>
                     if (pos c' =? pos c)%nat then None
                     else star_iter (fun c g k => run r c g k) greedy k1 fuel c' g')) ->
          is_Some (run r c g2 (fun c' g' =>
                     if (pos c' =? pos c)%nat then None
                     else star_iter (fun c g k => run r c g k) greedy k2 fuel c' g'))).
      { apply IH. intros c' g1' g2'.
        destruct (pos c' =? pos c)%nat; [intros [? ?]; discriminate | apply IHf]. }
      destruct greedy.
      * destruct (run r c g1 _) eqn:H1.
        -- destruct Hbody as [y ->]; eauto.
        -- destruct (run r c g2 _); eauto.
      * destruct (k1 c g1) eqn:Hk1.
        -- destruct (Hk c g1 g2) as [y ->]; [rewrite Hk1|]; eauto.
        -- destruct (k2 c g2); eauto.
  - simpl in *. eapply IH; [|exact H]. intros c' g1' g2'. apply Hk.
  - simpl in *. destruct (at_bol c); [eauto | destruct H; discriminate].
  - simpl in *. destruct (at_eol multiline c); [eauto | destruct H; discriminate].
  - simpl in *. destruct (xorb _ _); [eauto | destruct H; discriminate].
Qed.

Lemma search_at_unfold (r : regex) (p : option ascii) (i : nat) (s : string) :
  search_at r p i s =
  match match_at r (Cursor p i s) with
  | Some m => Some m
  | None =>
      match s with
      | EmptyString => None
      | String a s' => search_at r (Some a) (S i) s'
      end
  end.
Proof. destruct s; reflexivity. Qed.

(** A pattern that matches wherever another does is found whenever the
    other is. *)
Lemma search_at_mono (r1 r2 : regex) :
  (forall c, is_Some (match_at r1 c) -> is_Some (match_at r2 c)) ->
  forall s p i, is_Some (search_at r1 p i s) -> is_Some (search_at r2 p i s).
Proof.
  intros Hm. induction s as [|a s IH]; intros p i H;
    rewrite search_at_unfold in *.
  - destruct (match_at r1 _) eqn:H1; [|destruct H; discriminate].
    destruct (Hm (Cursor p i EmptyString)) as [m ->]; [rewrite H1|]; eauto.
  - destruct (match_at r1 _) eqn:H1.
    + destruct (Hm (Cursor p i (String a s))) as [m ->]; [rewrite H1|]; eauto.
    + destruct (match_at r2 _); [eauto | now apply IH].
Qed.

Lemma match_at_Any (rs : list regex) (r : regex) (c : cursor) :
  r ∈ rs -> is_Some (match_at r c) -> is_Some (match_at (Any rs) c).
Proof.
  induction rs as [|r0 rs IH]; intros Hin H; [now apply elem_of_nil in Hin|].
  destruct rs as [|r1 rs].
  - apply list_elem_of_singleton in Hin as ->. exact H.
  - change (Any (r0 :: r1 :: rs)) with (Alt r0 (Any (r1 :: rs))).
    unfold match_at in *. cbn [run].
    apply elem_of_cons in Hin as [->|Hin].
    + destruct H as [m ->]. eauto.
    + destruct (run r0 c [] _); [eauto | now apply IH].
Qed.

(** A group around an alternative matches only where one of the
    alternatives, without the group, matches. *)
Lemma grouped_alt_split (a b T : regex) (n : nat) (c : cursor) :
  is_Some (match_at (Seq Wb (Seq (Grp n (Alt a b)) T)) c) ->
  is_Some (match_at (Seq Wb (Seq a T)) c)
  \/ is_Some (match_at (Seq Wb (Seq b T)) c).
Proof.
  unfold match_at.
  set (k0 := fun (c' : cursor) (g : caps) => Some (Match (pos c) (pos c') g)).
  set (K1 := fun (c' : cursor) (g' : caps) =>
               run T c' ((n, (pos c, pos c')) :: g') k0).
  set (K2 := fun (c' : cursor) (g' : caps) => run T c' g' k0).
  change (is_Some (if xorb (word_before c) (word_after c)
                   then match run a c [] K1 with
                        | Some x => Some x
                        | None => run b c [] K1
                        end
                   else None) ->
          is_Some (if xorb (word_before c) (word_after c)
                   then run a c [] K2 else None)
          \/ is_Some (if xorb (word_before c) (word_after c)
                      then run b c [] K2 else None)).
  intros H.
  destruct (xorb _ _); [|destruct H; discriminate].
  assert (Hk : forall c' g1' g2', is_Some (K1 c' g1') -> is_Some (K2 c' g2')).
  { intros c' g1' g2'. apply run_any_caps. unfold k0. eauto. }
  destruct (run a c [] K1) eqn:Ha.
  - left. eapply (run_any_caps a); [exact Hk|]. rewrite Ha. eauto.
  - right. eapply (run_any_caps b); [exact Hk|]. exact H.
Qed.

(** Where the same-package pattern matches, one of the ten reference
    patterns does. *)
Lemma subtype_re_in_combined (fqn base : string) (c : cursor) :
  is_Some (match_at (subtype_re base) c) ->
  is_Some (match_at (combined_re fqn base) c).
Proof.
  intros H.
  apply (grouped_alt_split (Lit "implements") (Lit "extends")
           (Cat [Wb; lazy_any; Wb; Lit base; Wb]) 1 c) in H.
  destruct H as [H|H].
  - apply (match_at_Any _ (Cat [Wb; Lit "implements"; Wb; lazy_any; Wb;
                                Lit base; Wb])); [|exact H].
    unfold reference_patterns. find_elem.
  - apply (match_at_Any _ (Cat [Wb; Lit "extends"; Wb; lazy_any; Wb;
                                Lit base; Wb])); [|exact H].
    unfold reference_patterns. find_elem.
Qed.

(** ** The reverse-dependency search *)

Lemma reverse_candidate_spec (fs : FS) (target : string) (tests : bool)
    (root name path : string) :
  reverse_candidate fs target tests root name = Some path <->
  path = os_path_join root name
  /\ Str.endswith ".java" name = true
  /\ (tests = true \/ search TEST_RE name = None)
  /\ exists text,
       read fs path = Some text
       /\ is_Some (search (combined_re target (base_name_of target)) text).
Proof.
  unfold reverse_candidate.
  destruct (Str.endswith ".java" name); simpl;
    [|split; [discriminate | intros (_ & ? & _); discriminate]].
  assert (Htest : negb tests && bool_decide (is_Some (search TEST_RE name))
                  = false <-> tests = true \/ search TEST_RE name = None).
  { destruct tests; simpl; [tauto|]. case_bool_decide as Hd.
    - split; [discriminate|]. intros [?|Hn]; [discriminate|].
      rewrite Hn in Hd. destruct Hd; discriminate.
    - split; [|reflexivity]. intros _. right.
      destruct (search TEST_RE name); [|reflexivity]. exfalso. apply Hd. eauto. }
  destruct (negb tests && _).
  { split; [discriminate|]. intros (_ & _ & Ht & _).
    apply Htest in Ht. discriminate. }
  destruct (read fs (os_path_join root name)) as [text|] eqn:Hr.
  2:{ split; [discriminate|]. intros (-> & _ & _ & text & Ht & _). congruence. }
  assert (Hsub : bool_decide (is_Some (search (subtype_re (base_name_of target))
                                         text)) = true ->
                 is_Some (search (combined_re target (base_name_of target)) text)).
  { intros Hb. apply bool_decide_eq_true in Hb. revert Hb.
    apply search_at_mono. intros c. apply subtype_re_in_combined. }
  split.
  - intros H.
    assert (Hp : path = os_path_join root name
                 /\ is_Some (search (combined_re target (base_name_of target))
                               text)).
    { destruct (bool_decide (_ = Some _)); simpl in H.
      - destruct (bool_decide (is_Some (search (subtype_re _) text))) eqn:Hb.
        + injection H as <-. auto.
        + case_bool_decide; [|discriminate]. injection H as <-. auto.
      - case_bool_decide; [|discriminate]. injection H as <-. auto. }
    destruct Hp as [-> Hc]. repeat split; auto.
    + now apply Htest.
    + eauto.
  - intros (-> & _ & _ & text' & Ht & Hc).
    rewrite Hr in Ht. injection Ht as <-.
    destruct (_ && _); [reflexivity|].
    now rewrite bool_decide_eq_true_2.
Qed.

Lemma found_iff_matching (fs : FS) (order : SetOrder)
    (repo target : string) (tests : bool) (f : string) :
  f ∈ find_reverse_dependencies fs order repo target tests <->
  exists root dirs files name text,
    (root, dirs, files) ∈ walk fs repo /\ name ∈ files
    /\ f = os_path_join root name
    /\ Str.endswith ".java" name = true
    /\ (tests = true \/ search TEST_RE name = None)
    /\ read fs f = Some text
    /\ is_Some (search (combined_re target (base_name_of target)) text).
Proof.
  unfold find_reverse_dependencies, reverse_matches.
  rewrite (list_set_elem order), elem_of_flat_map. split.
  - intros ([[root dirs] files] & Hw & Hf).
    apply list_elem_of_omap in Hf as (name & Hn & Hc).
    apply reverse_candidate_spec in Hc as (Hp & Hj & Ht & text & Hr & Hm).
    exists root, dirs, files, name, text. auto 10.
  - intros (root & dirs & files & name & text & Hw & Hn & Hp & Hj & Ht & Hr & Hm).
    exists (root, dirs, files). split; [exact Hw|].
    apply list_elem_of_omap. exists name. split; [exact Hn|].
    apply reverse_candidate_spec. eauto 10.
Qed.

(** X6. The search returns exactly the files that [os.walk] lists
    under the repository, whose name ends in [.java] and passes the
    test-name filter, that can be read, and whose text one of the ten
    reference patterns matches: the same-package test of the loop adds
    no file. *)
Theorem find_reverse_dependencies_spec (fs : FS) (order : SetOrder)
    (repo target : string) (tests : bool) (f : string) :
  f ∈ find_reverse_dependencies fs order repo target tests <->
  exists root dirs files name text,
    (root, dirs, files) ∈ walk fs repo /\ name ∈ files
    /\ f = os_path_join root name
    /\ Str.endswith ".java" name = true
    /\ (tests = true \/ search TEST_RE name = None)
    /\ read fs f = Some text
    /\ is_Some (search (combined_re target (base_name_of target)) text).
Proof. apply found_iff_matching. Qed.

(** X7. Opting in to test files only adds files: what the search finds
    without them it finds with them, and a file found only with them has
    a name that the test-name pattern matches. *)
Theorem include_tests_only_adds (fs : FS) (order : SetOrder)
    (repo target : string) (f : string) :
  (f ∈ find_reverse_dependencies fs order repo target false ->
   f ∈ find_reverse_dependencies fs order repo target true)
  /\ (f ∈ find_reverse_dependencies fs order repo target true ->
      f ∉ find_reverse_dependencies fs order repo target false ->
      exists root name,
        f = os_path_join root name /\ is_Some (search TEST_RE name)).
Proof.
  rewrite !found_iff_matching. split.
  - intros (root & dirs & files & name & text & Hw & Hn & Hp & Hj & _ & Hr & Hm).
    exists root, dirs, files, name, text. auto 10.
  - intros (root & dirs & files & name & text & Hw & Hn & Hp & Hj & _ & Hr & Hm)
           Hnot.
    exists root, name. split; [exact Hp|].
    destruct (search TEST_RE name) as [m|] eqn:Ht; [eauto|].
    exfalso. apply Hnot. exists root, dirs, files, name, text. auto 10.
Qed.

(** ** Literals and substrings *)

Lemma run_Lit {R : Type} (s : string) :
  forall (c : cursor) (g : caps) (k : cursor -> caps -> option R) (x : R),
    run (Lit s) c g k = Some x ->
    Str.startswith s (rest c) = true
    /\ exists c', rest c' = Str.drop (Str.len s) (rest c) /\ k c' g = Some x.
Proof.
  induction s as [|a s IH]; intros c g k x H.
  - split; [reflexivity|]. exists c. split; [reflexivity | exact H].
  - change (Lit (String a s)) with (Seq (Chr (Cls.one a)) (Lit s)) in H.
    cbn [run] in H.
    destruct (rest c) as [|b t] eqn:Hr; [discriminate|].
    unfold Cls.one in H. destruct (Ascii.eqb_spec a b) as [<-|]; [|discriminate].
    apply IH in H as (Hs & c' & Hc' & Hk). simpl in Hs, Hc'.
    split.
    + simpl. now rewrite Ascii.eqb_refl, Hs.
    + exists c'. split; [|exact Hk]. exact Hc'.
Qed.

Lemma search_at_found (r : regex) :
  forall (s : string) (p : option ascii) (i : nat) (m : rmatch),
    search_at r p i s = Some m ->
    exists n p', match_at r (Cursor p' (i + n) (Str.drop n s)) = Some m.
Proof.
  induction s as [|a s IH]; intros p i m H; rewrite search_at_unfold in H.
  - destruct (match_at r _) eqn:Hm; [|discriminate]. injection H as ->.
    exists O, p. now rewrite Nat.add_0_r.
  - destruct (match_at r _) eqn:Hm.
    + injection H as ->. exists O, p. now rewrite Nat.add_0_r.
    + apply IH in H as (n & p' & H). exists (S n), p'.
      now replace (i + S n)%nat with (S i + n)%nat by lia.
Qed.

Lemma contains_unfold (p s : string) :
  Str.contains p s =
  Str.startswith p s
  || match s with EmptyString => false | String _ s' => Str.contains p s' end.
Proof. destruct s; reflexivity. Qed.

Lemma contains_drop (p : string) (n : nat) :
  forall s, Str.startswith p (Str.drop n s) = true -> Str.contains p s = true.
Proof.
  induction n as [|n IH]; intros s H; rewrite contains_unfold.
  - simpl in H. now rewrite H.
  - destruct s as [|a s]; simpl in H; [now rewrite H|].
    rewrite (IH s H). apply orb_true_r.
Qed.

Lemma contains_inv (p : string) :
  forall s, Str.contains p s = true ->
            exists n, Str.startswith p (Str.drop n s) = true.
Proof.
  induction s as [|a s IH]; intros H; rewrite contains_unfold in H.
  - rewrite orb_false_r in H. now exists O.
  - apply orb_true_iff in H as [H|H]; [now exists O|].
    destruct (IH H) as [n Hn]. now exists (S n).
Qed.

Lemma startswith_app (a b : string) :
  forall s, Str.startswith (a +:+ b) s = true ->
            Str.startswith b (Str.drop (Str.len a) s) = true.
Proof.
  induction a as [|x a IH]; intros s H; [exact H|].
  destruct s as [|y s]; simpl in H; [discriminate|].
  apply andb_true_iff in H as [_ H]. simpl. now apply IH.
Qed.

Lemma contains_app_r (a b s : string) :
  Str.contains (a +:+ b) s = true -> Str.contains b s = true.
Proof.
  intros H. apply contains_inv in H as [n H].
  apply startswith_app in H. rewrite drop_drop in H.
  eapply contains_drop. exact H.
Qed.

(** A pattern that can only match where the text ahead satisfies [P] is
    not found in a text none of whose suffixes satisfies [P]. *)
Lemma search_requires (r : regex) (P : string -> bool) :
  (forall c, is_Some (match_at r c) -> P (rest c) = true) ->
  forall s p i, (forall n, P (Str.drop n s) = false) -> search_at r p i s = None.
Proof.
  intros Hr. induction s as [|a s IH]; intros p i Hs;
    rewrite search_at_unfold.
  - destruct (match_at r _) eqn:Hm; [|reflexivity].
    assert (H : P (rest (Cursor p i EmptyString)) = true)
      by (apply Hr; rewrite Hm; eauto).
    simpl in H. specialize (Hs O). simpl in Hs. congruence.
  - destruct (match_at r _) eqn:Hm.
    + assert (H : P (rest (Cursor p i (String a s))) = true)
        by (apply Hr; rewrite Hm; eauto).
      simpl in H. specialize (Hs O). simpl in Hs. congruence.
    + apply IH. intros n. exact (Hs (S n)).
Qed.

Lemma not_contains_drop (p s : string) (n : nat) :
  Str.contains p s = false -> Str.startswith p (Str.drop n s) = false.
Proof.
  intros H. destruct (Str.startswith p (Str.drop n s)) eqn:E; [|reflexivity].
  apply contains_drop in E. congruence.
Qed.

Lemma alt_lit_prefix (a b : string) (T : regex) (c : cursor) :
  is_Some (match_at (Seq (Alt (Lit a) (Lit b)) T) c) ->
  Str.startswith a (rest c) = true \/ Str.startswith b (rest c) = true.
Proof.
  unfold match_at.
  set (k0 := fun (c' : cursor) (g : caps) => Some (Match (pos c) (pos c') g)).
  set (K := fun (c' : cursor) (g' : caps) => run T c' g' k0).
  change (is_Some (match run (Lit a) c [] K with
                   | Some x => Some x
                   | None => run (Lit b) c [] K
                   end) -> Str.startswith a (rest c) = true
                           \/ Str.startswith b (rest c) = true).
  intros [m H]. destruct (run (Lit a) c [] K) eqn:Ha.
  - left. now apply run_Lit in Ha as [? _].
  - right. now apply run_Lit in H as [? _].
Qed.

Lemma lit_chr_lit_prefix (l : string) (p : ascii -> bool) (s : string)
    (T : regex) (c : cursor) :
  is_Some (match_at (Seq (Lit l) (Seq (Chr p) (Seq (Lit s) T))) c) ->
  Str.startswith s (Str.drop (S (Str.len l)) (rest c)) = true.
Proof.
  unfold match_at.
  set (k0 := fun (c' : cursor) (g : caps) => Some (Match (pos c) (pos c') g)).
  set (K2 := fun (c' : cursor) (g' : caps) => run T c' g' k0).
  set (K1 := fun (c' : cursor) (g' : caps) => run (Lit s) c' g' K2).
  change (is_Some (run (Lit l) c [] (fun c' g' => run (Chr p) c' g' K1)) ->
          Str.startswith s (Str.drop (S (Str.len l)) (rest c)) = true).
  intros [m H]. apply run_Lit in H as (_ & c1 & Hc1 & H).
  cbn [run] in H. destruct (rest c1) as [|a t] eqn:Hr; [discriminate|].
  destruct (p a); [|discriminate].
  unfold K1 in H. apply run_Lit in H as (Hs & _). simpl in Hs.
  replace (S (Str.len l)) with (Str.len l + 1)%nat by lia.
  rewrite <- drop_drop, <- Hc1. exact Hs.
Qed.

(** ** Bean and configuration detection *)

Lemma qualifier_mentions (cls text : string) :
  is_Some (search (qualifier_re cls) text) -> Str.contains cls text = true.
Proof.
  intros [m H]. apply search_at_found in H as (n & p' & H).
  assert (Hs : is_Some (match_at (qualifier_re cls)
                          (Cursor p' (0 + n) (Str.drop n text))))
    by (rewrite H; eauto).
  apply (lit_chr_lit_prefix "@Qualifier(" quote cls
           (Seq (Chr quote) (Lit ")"))) in Hs.
  simpl rest in Hs. rewrite drop_drop in Hs.
  eapply contains_drop. exact Hs.
Qed.

(** X8. For a class name that is a Java identifier, as the assembler
    passes it, every path that [find_bean_configurations] returns names
    a file that [os.walk] lists under the repository, whose name ends in
    [.java], that can be read and whose text contains the class name;
    unlike the reverse search it does not leave out test files.  (A
    name with characters that mean something in a pattern is outside
    the model: the source puts the name into the pattern as it is.) *)
Theorem find_bean_configurations_sound (fs : FS) (repo cls f : string) :
  identifier_name cls = true ->
  f ∈ find_bean_configurations fs repo cls ->
  exists root dirs files name text,
    (root, dirs, files) ∈ walk fs repo /\ name ∈ files
    /\ f = os_path_join root name
    /\ Str.endswith ".java" name = true
    /\ read fs f = Some text
    /\ Str.contains cls text = true.
Proof.
  intros _. unfold find_bean_configurations. rewrite elem_of_flat_map.
  intros ([[root dirs] files] & Hw & Hf).
  apply list_elem_of_omap in Hf as (name & Hn & Hc).
  exists root, dirs, files, name. unfold bean_candidate in Hc.
  destruct (Str.endswith ".java" name); [|discriminate]. simpl in Hc.
  destruct (read fs (os_path_join root name)) as [text|] eqn:Hr; [|discriminate].
  exists text.
  destruct (_ || _) eqn:Hcond; [|discriminate]. injection Hc as <-.
  repeat split; auto.
  apply orb_true_iff in Hcond as [Hcond|Hq].
  - apply orb_true_iff in Hcond as [Hcfg|Hbean].
    + apply andb_true_iff in Hcfg as [_ Hnew].
      exact (contains_app_r "new " cls text Hnew).
    + now apply andb_true_iff in Hbean as [_ ?].
  - apply bool_decide_eq_true in Hq. now apply qualifier_mentions.
Qed.

Lemma find_bean_configurations_sound_witness :
  exists text,
    read (tree_fs bundle_repo) "repo/src/main/java/p/C.java" = Some text
    /\ Str.contains "B" text = true.
Proof.
  destruct (find_bean_configurations_sound (tree_fs bundle_repo) "repo" "B"
              "repo/src/main/java/p/C.java")
    as (root & dirs & files & name & text & _ & _ & _ & _ & Hr & Hc);
    [reflexivity | vm_compute; find_elem|].
  exists text. split; assumption.
Defined.

(** ** Inheritance and import resolution *)

Lemma matches_none (r : regex) (text : string) :
  search r text = None -> matches r text = [].
Proof. intros H. unfold matches. simpl. unfold search in H. now rewrite H. Qed.

(** X9. A source text that contains neither [extends] nor [implements]
    has no inheritance dependencies, whatever the repository holds. *)
Theorem no_keyword_no_inheritance (fs : FS) (code repo : string) :
  Str.contains "extends" code = false ->
  Str.contains "implements" code = false ->
  find_inheritance_dependencies fs code repo = [].
Proof.
  intros He Hi. unfold find_inheritance_dependencies, findall1.
  rewrite matches_none; [reflexivity|].
  apply (search_requires INHERIT_RE
           (fun t => Str.startswith "extends" t || Str.startswith "implements" t)).
  - intros c Hc.
    apply (alt_lit_prefix "extends" "implements") in Hc as [Hc|Hc];
      rewrite Hc; [reflexivity | apply orb_true_r].
  - intros n. now rewrite !not_contains_drop.
Qed.

Lemma no_keyword_no_inheritance_witness :
  find_inheritance_dependencies (tree_fs chain_repo)
    "package p; public class A { }" "repo" = [].
Proof. apply no_keyword_no_inheritance; reflexivity. Defined.

Lemma take_drop_str (n : nat) :
  forall s, Str.take n s +:+ Str.drop n s = s.
Proof.
  induction n as [|n IH]; intros s; [reflexivity|].
  destruct s as [|a s]; [reflexivity|]. simpl. now rewrite IH.
Qed.

Lemma endswith_inv (p s : string) :
  Str.endswith p s = true -> exists pre, s = pre +:+ p.
Proof.
  unfold Str.endswith. intros H. apply andb_true_iff in H as [_ H].
  apply String.eqb_eq in H.
  exists (Str.take (Str.len s - Str.len p) s).
  rewrite <- (take_drop_str (Str.len s - Str.len p) s) at 1. now rewrite H.
Qed.

Lemma endswith_app_l (p a s : string) :
  Str.endswith p s = true -> Str.endswith p (a +:+ s) = true.
Proof.
  intros H. apply endswith_inv in H as [pre ->].
  rewrite <- app_assoc_str. apply endswith_app.
Qed.

Lemma endswith_join (p a b : string) :
  Str.endswith p b = true -> Str.endswith p (os_path_join a b) = true.
Proof.
  intros H. unfold os_path_join.
  destruct (Str.startswith "/" b); [exact H|].
  destruct (_ || _); [now apply endswith_app_l|].
  now apply endswith_app_l, endswith_app_l.
Qed.

Lemma resolve_import_java (fs : FS) (name repo p : string) :
  p ∈ resolve_import fs name repo -> Str.endswith ".java" p = true.
Proof.
  unfold resolve_import. destruct (Str.endswith ".*" name).
  - destruct (isdir fs _); [|intros H; now apply elem_of_nil in H].
    rewrite elem_of_flat_map. intros ([[root dirs] files] & _ & Hp).
    apply elem_of_map in Hp as (f & Hf & ->).
    apply list_elem_of_filter in Hf as [Hj _].
    apply endswith_join. now apply Is_true_true.
  - destruct (exists_ fs _); [|intros H; now apply elem_of_nil in H].
    intros H. apply list_elem_of_singleton in H as ->.
    apply endswith_join, endswith_app.
Qed.

(** X10. Every path that import resolution returns ends in [.java],
    for single and for wildcard imports, and so does every inheritance
    dependency, which is resolved the same way. *)
Theorem resolved_paths_are_java (fs : FS) (repo : string) :
  (forall name p,
      p ∈ resolve_import fs name repo -> Str.endswith ".java" p = true)
  /\ (forall code p,
      p ∈ find_inheritance_dependencies fs code repo ->
      Str.endswith ".java" p = true).
Proof.
  split; [intros name p; apply resolve_import_java|].
  intros code p. unfold find_inheritance_dependencies.
  rewrite elem_of_flat_map. intros (m & _ & Hp).
  apply elem_of_flat_map in Hp as (part & _ & Hp).
  destruct (Str.truthy part); [|now apply elem_of_nil in Hp].
  eapply resolve_import_java. exact Hp.
Qed.

(** X11. [java_package_to_path] keeps the length of the name, leaves no
    dot in it and changes nothing in a name that has none, so that it
    changes nothing when applied again. *)
Theorem java_package_to_path_shape (name : string) :
  Str.len (java_package_to_path name) = Str.len name
  /\ Str.contains "." (java_package_to_path name) = false
  /\ (Str.contains "." name = false -> java_package_to_path name = name)
  /\ java_package_to_path (java_package_to_path name)
     = java_package_to_path name.
Proof.
  unfold java_package_to_path.
  assert (Hnodot : forall s, Str.contains "." (Str.replace_char "." "/" s) = false).
  { induction s as [|c s IH]; [reflexivity|].
    cbn [Str.replace_char]. rewrite contains_unfold, IH, orb_false_r.
    cbn [Str.startswith]. rewrite andb_true_r.
    destruct (Ascii.eqb_spec c "."); [reflexivity|].
    apply Ascii.eqb_neq. congruence. }
  assert (Hid : forall s, Str.contains "." s = false ->
                          Str.replace_char "." "/" s = s).
  { induction s as [|c s IH]; intros H; [reflexivity|].
    rewrite contains_unfold in H. apply orb_false_iff in H as [H1 H2].
    cbn [Str.replace_char]. rewrite (IH H2).
    destruct (Ascii.eqb_spec c "."); [|reflexivity].
    subst c. discriminate. }
  repeat split.
  - induction name as [|c s IH]; simpl; [reflexivity | now rewrite IH].
  - apply Hnodot.
  - apply Hid.
  - apply Hid, Hnodot.
Qed.

(** ** The shape of an extracted type *)

Lemma match_at_span (r : regex) (c : cursor) (m : rmatch) :
  match_at r c = Some m -> m_start m = pos c /\ (pos c <= m_end m)%nat.
Proof.
  unfold match_at. intros H.
  apply run_reaches in H as (c' & g' & (n & Hp & _) & H).
  injection H as <-. simpl. split; [reflexivity | lia].
Qed.

Lemma search_span (r : regex) (text : string) (m : rmatch) :
  search r text = Some m -> (m_start m <= m_end m)%nat.
Proof.
  unfold search. intros H. apply search_at_found in H as (n & p' & H).
  apply match_at_span in H as [-> H]. exact H.
Qed.

Lemma drop_get (i : nat) :
  forall (code : string) (c : ascii) (s : string),
    Str.drop i code = String c s ->
    String.get i code = Some c /\ Str.drop (S i) code = s.
Proof.
  induction i as [|i IH]; intros code c s H.
  - simpl in H. subst code. split; reflexivity.
  - destruct code as [|a code]; [discriminate|]. simpl in H.
    apply IH in H. exact H.
Qed.

Lemma scan_braces_shape (code : string) (start : nat) (s : string) :
  forall (i : nat) (d : Z),
    Str.drop i code = s ->
    scan_braces code start i d s = code
    \/ exists j, (i <= j)%nat /\ String.get j code = Some "}"%char
                 /\ scan_braces code start i d s = Str.slice start (S j) code.
Proof.
  induction s as [|c s IH]; intros i d Hs; [now left|].
  apply drop_get in Hs as [Hget Hs].
  assert (Hnext : forall d',
             scan_braces code start (S i) d' s = code
             \/ exists j, (i <= j)%nat /\ String.get j code = Some "}"%char
                          /\ scan_braces code start (S i) d' s
                             = Str.slice start (S j) code).
  { intros d'. destruct (IH (S i) d' Hs) as [H|(j & Hj & Hg & H)]; [now left|].
    right. exists j. repeat split; [lia | exact Hg | exact H]. }
  cbn [scan_braces].
  destruct (brace_delta_cases c)
    as [(E1 & _ & _)|[(E1 & E2 & _ & ->)|(E1 & E2 & _ & _)]].
  - rewrite E1. apply Hnext.
  - rewrite E1, E2. destruct (d - 1 =? 0); [|apply Hnext].
    right. exists i. repeat split; [lia | exact Hget].
  - rewrite E1, E2. apply Hnext.
Qed.

Lemma len_take_le (n : nat) : forall s, (Str.len (Str.take n s) <= Str.len s)%nat.
Proof.
  induction n as [|n IH]; intros s; simpl; [lia|].
  destruct s as [|a s]; simpl; [lia|]. specialize (IH s). lia.
Qed.

Lemma len_drop_le (n : nat) : forall s, (Str.len (Str.drop n s) <= Str.len s)%nat.
Proof.
  induction n as [|n IH]; intros s; simpl; [lia|].
  destruct s as [|a s]; simpl; [lia|]. specialize (IH s). lia.
Qed.

Lemma len_take_exact (n : nat) :
  forall s, (n <= Str.len s)%nat -> Str.len (Str.take n s) = n.
Proof.
  induction n as [|n IH]; intros s H; [reflexivity|].
  destruct s as [|a s]; simpl in *; [lia|]. rewrite IH; [reflexivity | lia].
Qed.

Lemma len_drop_exact (n : nat) :
  forall s, Str.len (Str.drop n s) = (Str.len s - n)%nat.
Proof.
  induction n as [|n IH]; intros s; simpl; [lia|].
  destruct s as [|a s]; simpl; [reflexivity | apply IH].
Qed.

Lemma get_lt (j : nat) :
  forall (s : string) (c : ascii),
    String.get j s = Some c -> (j < Str.len s)%nat.
Proof.
  induction j as [|j IH]; intros s c H; destruct s as [|a s]; simpl in *;
    try discriminate; [lia|]. apply IH in H. lia.
Qed.

(** X12. What [extract_full_type] returns is either the input itself
    or a part of it that runs from some index to a closing brace of the
    input at or after that index: it is never longer than the input,
    never empty unless the input is, and never text that is not in the
    input. *)
Theorem extract_full_type_is_slice (code : string) :
  (extract_full_type code = code
   \/ exists i j, (i <= j)%nat /\ String.get j code = Some "}"%char
                  /\ extract_full_type code = Str.slice i (S j) code)
  /\ (Str.len (extract_full_type code) <= Str.len code)%nat
  /\ (extract_full_type code = EmptyString -> code = EmptyString).
Proof.
  assert (Hshape : extract_full_type code = code
                   \/ exists i j, (i <= j)%nat
                        /\ String.get j code = Some "}"%char
                        /\ extract_full_type code = Str.slice i (S j) code).
  { unfold extract_full_type.
    destruct (search TYPE_RE code) as [m|] eqn:Hm; [|now left].
    apply search_span in Hm.
    destruct (scan_braces_shape code (m_start m) _ (m_end m) 0 eq_refl)
      as [H|(j & Hj & Hg & H)]; [now left|].
    right. exists (m_start m), j. repeat split; [lia | exact Hg | exact H]. }
  split; [exact Hshape|].
  destruct Hshape as [->|(i & j & Hij & Hg & ->)]; [split; [lia | auto]|].
  apply get_lt in Hg.
  assert (Hlen : Str.len (Str.slice i (S j) code) = (S j - i)%nat).
  { unfold Str.slice. rewrite len_drop_exact, len_take_exact; lia. }
  split; [lia|].
  intros He. rewrite He in Hlen. simpl in Hlen. lia.
Qed.

(** ** The bundle, further *)

Section BundleFacts.

Context (fs : FS) (order : SetOrder) (repo : string) (depth : Z)
        (tests : bool) (limit : option Z).

(** A property of bundles that every guarded emission keeps is kept by
    the whole assembly. *)
Lemma assembly_preserves (I : bundle -> Prop) :
  (forall k path b b',
      I b -> emit fs k (body_of k) path b = Some b' -> I b') ->
  forall targets b b',
    I b ->
    process_targets fs order repo depth tests limit targets b = Some b' ->
    I b'.
Proof.
  intros Hemit.
  assert (Hall : forall k paths b b',
             I b -> emit_all fs k (body_of k) paths b = Some b' -> I b').
  { intros k. induction paths as [|p paths IH]; intros b b' Hb H; simpl in H.
    - now injection H as <-.
    - destruct (emit fs k (body_of k) p b) as [b1|] eqn:He; [|discriminate].
      simpl in H. eapply IH; [|exact H]. eapply Hemit; eassumption. }
  assert (Himp : forall imports b b',
             I b -> emit_imports fs repo imports b = Some b' -> I b').
  { induction imports as [|imp imports IH]; intros b b' Hb H; simpl in H.
    - now injection H as <-.
    - destruct (emit_all fs _ _ _ b) as [b1|] eqn:He; [|discriminate].
      simpl in H. eapply IH; [|exact H].
      exact (Hall (IMPORT imp) _ _ _ Hb He). }
  assert (Hone : forall t b b',
             I b ->
             process_target fs order repo depth tests limit t b = Some b' ->
             I b').
  { intros t b b' Hb H. unfold process_target in H.
    destruct (negb (exists_ fs _)); [now injection H as <-|].
    destruct (read fs _) as [code|]; [|discriminate]. simpl in H.
    destruct (emit_imports fs repo _ b) as [b1|] eqn:H1; [|discriminate].
    apply Himp in H1; [|assumption]. simpl in H.
    destruct (emit_all fs EXTENDS_IMPLEMENTS _ _ b1) as [b2|] eqn:H2;
      [|discriminate].
    apply (Hall EXTENDS_IMPLEMENTS) in H2; [|assumption]. simpl in H.
    match type of H with
    | (?rev ≫= _) = _ => destruct rev as [b3|] eqn:H3; [|discriminate]
    end.
    assert (Hb3 : I b3).
    { destruct (search PACKAGE_RE code), (search TYPE_RE code); simpl in H3;
        try (now injection H3 as <-).
      destruct (_ && _); [|now injection H3 as <-].
      destruct (Str.truthy _); [|now injection H3 as <-].
      exact (Hall REVERSE_DEPENDENCY _ _ _ H2 H3). }
    simpl in H.
    destruct (search TYPE_RE code); simpl in H; [|now injection H as <-].
    destruct (Str.truthy _); [|now injection H as <-].
    exact (Hall BEAN_CONFIGURATION _ _ _ Hb3 H). }
  induction targets as [|t targets IH]; intros b b' Hb H; simpl in H.
  - now injection H as <-.
  - destruct (process_target _ _ _ _ _ _ t b) as [b1|] eqn:Ht; [|discriminate].
    simpl in H. eapply IH; [|exact H]. eapply Hone; eassumption.
Qed.

Lemma process_targets_app targets1 targets2 b :
  process_targets fs order repo depth tests limit (targets1 ++ targets2) b
  = process_targets fs order repo depth tests limit targets1 b
    ≫= process_targets fs order repo depth tests limit targets2.
Proof.
  revert b. induction targets1 as [|t ts IH]; intros b; simpl; [reflexivity|].
  destruct (process_target _ _ _ _ _ _ t b) as [b1|]; simpl; [apply IH|reflexivity].
Qed.


End BundleFacts.


(** X14. Every chunk of the bundle holds what the file at its path
    reads as: the extracted type for an [IMPORT] chunk, the whole text
    for a chunk of the other three kinds. *)
Theorem chunks_hold_file_text (fs : FS) (order : SetOrder) (repo : string)
    (depth : Z) (tests : bool) (limit : option Z) (targets : list string)
    (b : bundle) (c : chunk) :
  prepare_context_multi fs order repo depth tests limit targets = Some b ->
  c ∈ output_chunks b ->
  exists src,
    read fs (chunk_path c) = Some src
    /\ chunk_text c = body_of (chunk_kind c) src.
Proof.
  intros H. revert c.
  refine (assembly_preserves fs order repo depth tests limit
            (fun b => forall c, c ∈ output_chunks b ->
               exists src, read fs (chunk_path c) = Some src
                           /\ chunk_text c = body_of (chunk_kind c) src)
            _ targets empty_bundle b _ H).
  - intros k path b0 b' Hb He c Hc. unfold emit in He.
    destruct (bool_decide _); [injection He as <-; auto|].
    destruct (read fs path) as [src|] eqn:Hr; [|discriminate].
    injection He as <-. simpl in Hc.
    apply elem_of_app in Hc as [Hc|Hc]; [auto|].
    apply list_elem_of_singleton in Hc as ->. simpl. eauto.
  - intros c Hc. now apply elem_of_nil in Hc.
Qed.

Lemma chunks_hold_file_text_witness :
  exists b c src,
    prepare_context_multi (tree_fs bundle_repo) dedup_order "repo" 2 false None
      ["src/main/java/p/B.java"] = Some b
    /\ output_chunks b !! 0%nat = Some c
    /\ chunk_kind c = IMPORT "p.A"
    /\ read (tree_fs bundle_repo) (chunk_path c) = Some src
    /\ chunk_text c = extract_full_type src.
Proof.
  destruct (prepare_context_multi (tree_fs bundle_repo) dedup_order "repo" 2
              false None ["src/main/java/p/B.java"]) as [b|] eqn:Hb;
    [|vm_compute in Hb; discriminate].
  destruct (output_chunks b !! 0%nat) as [c|] eqn:Hc;
    [|vm_compute in Hb; injection Hb as <-; discriminate].
  destruct (chunks_hold_file_text _ _ _ _ _ _ _ b c Hb) as (src & Hr & Ht);
    [eapply list_elem_of_lookup_2; exact Hc|].
  assert (Hk : chunk_kind c = IMPORT "p.A").
  { vm_compute in Hb. injection Hb as <-. now injection Hc as <-. }
  exists b, c, src. rewrite Hk in Ht. auto.
Defined.

(** [seen_files] is the set of the paths of the chunks. *)
Lemma seen_files_are_chunk_paths (fs : FS) (order : SetOrder) (repo : string)
    (depth : Z) (tests : bool) (limit : option Z) (targets : list string)
    (b : bundle) :
  prepare_context_multi fs order repo depth tests limit targets = Some b ->
  seen_files b = list_to_set (map chunk_path (output_chunks b)).
Proof.
  intros H.
  refine (assembly_preserves fs order repo depth tests limit
            (fun b => seen_files b
                      = list_to_set (map chunk_path (output_chunks b)))
            _ targets empty_bundle b _ H).
  - intros k path b0 b' Hb He. unfold emit in He.
    destruct (bool_decide _); [now injection He as <-|].
    destruct (read fs path) as [src|]; [|discriminate].
    injection He as <-. simpl. rewrite map_app, list_to_set_app_L, Hb. simpl.
    rewrite (right_id_L ∅ (∪)). apply (comm_L (∪)).
  - reflexivity.
Qed.

(** X15. When the bundle is written to a file, the number reported in
    the descriptor, [len(seen_files)], is the number of chunks in the
    text written, and that text is the only thing written. *)
Theorem saved_count_is_chunk_count (fs : FS) (order : SetOrder)
    (can_write : string -> bool) (repo : string) (targets : list string)
    (output : string) (depth : Z) (tests : bool) (limit : option Z)
    (out : string) (n : nat) (effects : list effect) :
  prepare_context_outcome fs order can_write (Some repo) targets output depth
    tests limit false = (Some (Saved out n), effects) ->
  exists b,
    prepare_context_multi fs order repo depth tests limit targets = Some b
    /\ out = output
    /\ n = length (output_chunks b)
    /\ effects = [Written output (context_text (Some repo) targets b)].
Proof.
  unfold prepare_context_outcome, bundle_for. intros H.
  destruct (prepare_context_multi _ _ _ _ _ _ _) as [b|] eqn:Hb;
    [|discriminate].
  destruct (can_write output); [|discriminate].
  injection H as <- <- <-. exists b. repeat split.
  rewrite (seen_files_are_chunk_paths _ _ _ _ _ _ _ _ Hb).
  rewrite size_list_to_set, length_map; [reflexivity|].
  exact (proj1 (process_targets_tidy _ _ _ _ _ _ _ _ _ empty_bundle_tidy Hb)).
Qed.

Lemma saved_count_is_chunk_count_witness :
  exists b,
    prepare_context_multi (tree_fs bundle_repo) dedup_order "repo" 2 false None
      ["src/main/java/p/B.java"; "src/main/java/p/C.java"] = Some b
    /\ length (output_chunks b) = 3%nat.
Proof.
  destruct (prepare_context_outcome (tree_fs bundle_repo) dedup_order
              (fun _ => true) (Some "repo")
              ["src/main/java/p/B.java"; "src/main/java/p/C.java"]
              "context_full.txt" 2 false None false)
    as [[[text|out n]|] effects] eqn:H;
    [vm_compute in H; discriminate | | vm_compute in H; discriminate].
  pose proof H as H'. vm_compute in H'. injection H' as _ Hn _.
  destruct (saved_count_is_chunk_count _ _ _ _ _ _ _ _ _ _ _ _ H)
    as (b & Hb & _ & Hlen & _).
  exists b. split; [exact Hb|]. now rewrite <- Hlen, <- Hn.
Defined.

(** X16. Target files added at the end of the list only append: the
    chunks built for the shorter list open the chunks built for the
    longer one, in the same order. *)
Theorem later_targets_only_append (fs : FS) (order : SetOrder) (repo : string)
    (depth : Z) (tests : bool) (limit : option Z)
    (targets more : list string) (b2 : bundle) :
  prepare_context_multi fs order repo depth tests limit (targets ++ more)
  = Some b2 ->
  exists b1,
    prepare_context_multi fs order repo depth tests limit targets = Some b1
    /\ output_chunks b1 `prefix_of` output_chunks b2
    /\ seen_files b1 ⊆ seen_files b2.
Proof.
  unfold prepare_context_multi. rewrite process_targets_app. intros H.
  destruct (process_targets _ _ _ _ _ _ targets empty_bundle) as [b1|];
    [|discriminate].
  simpl in H. exists b1. split; [reflexivity|].
  refine (assembly_preserves fs order repo depth tests limit
            (fun b => output_chunks b1 `prefix_of` output_chunks b
                      /\ seen_files b1 ⊆ seen_files b)
            _ more b1 b2 _ H).
  - intros k path b b' [Hp Hs] He. unfold emit in He.
    destruct (bool_decide _); [injection He as <-; auto|].
    destruct (read fs path); [|discriminate].
    injection He as <-. simpl. split.
    + now apply prefix_app_r.
    + intros x Hx. apply elem_of_union. right. now apply Hs.
  - split; reflexivity.
Qed.

Lemma later_targets_only_append_witness :
  exists b1 b2,
    prepare_context_multi (tree_fs bundle_repo) dedup_order "repo" 2 false None
      ["src/main/java/p/A.java"] = Some b1
    /\ prepare_context_multi (tree_fs bundle_repo) dedup_order "repo" 2 false
         None ["src/main/java/p/A.java"; "src/main/java/p/B.java"] = Some b2
    /\ output_chunks b1 `prefix_of` output_chunks b2.
Proof.
  destruct (prepare_context_multi (tree_fs bundle_repo) dedup_order "repo" 2
              false None
              (["src/main/java/p/A.java"] ++ ["src/main/java/p/B.java"]))
    as [b2|] eqn:H2; [|vm_compute in H2; discriminate].
  destruct (later_targets_only_append _ _ _ _ _ _ _ _ _ H2)
    as (b1 & H1 & Hp & _).
  exists b1, b2. auto.
Defined.

(** ** The order of the categories *)

Section CategoryOrder.

Context (fs : FS) (order : SetOrder) (repo : string) (depth : Z)
        (tests : bool) (limit : option Z).

Lemma emit_all_appends k body :
  forall paths b b',
    emit_all fs k body paths b = Some b' ->
    exists l, output_chunks b' = output_chunks b ++ l
              /\ Forall (fun c => chunk_kind c = k) l.
Proof.
  induction paths as [|p paths IH]; intros b b' H; simpl in H.
  - injection H as <-. exists []. now rewrite app_nil_r.
  - destruct (emit fs k body p b) as [b1|] eqn:He; [|discriminate].
    simpl in H. apply IH in H as (l & Hl & Hk).
    unfold emit in He. destruct (bool_decide _).
    + injection He as <-. eauto.
    + destruct (read fs p) as [src|]; [|discriminate]. injection He as <-.
      simpl in Hl. exists (Chunk k p (body src) :: l).
      rewrite Hl, <- app_assoc. split; [reflexivity|].
      constructor; [reflexivity | exact Hk].
Qed.

Lemma emit_imports_appends :
  forall imports b b',
    emit_imports fs repo imports b = Some b' ->
    exists l, output_chunks b' = output_chunks b ++ l
              /\ Forall (fun c => exists imp, chunk_kind c = IMPORT imp) l.
Proof.
  induction imports as [|imp imports IH]; intros b b' H; simpl in H.
  - injection H as <-. exists []. now rewrite app_nil_r.
  - destruct (emit_all fs _ _ _ b) as [b1|] eqn:He; [|discriminate].
    simpl in H. apply IH in H as (l2 & Hl2 & Hk2).
    apply emit_all_appends in He as (l1 & Hl1 & Hk1).
    exists (l1 ++ l2). rewrite Hl2, Hl1, <- app_assoc. split; [reflexivity|].
    apply Forall_app. split; [|exact Hk2].
    apply (Forall_impl _ _ _ Hk1). intros c Hc. exists imp. exact Hc.
Qed.

(** X17. For one target file the chunks come in a fixed order of
    categories: the imports, then the supertypes, then the reverse
    dependencies, then the bean and configuration files. *)
Theorem categories_in_order (target : string) (b b' : bundle) :
  process_target fs order repo depth tests limit target b = Some b' ->
  exists imports supers reverse beans,
    output_chunks b' = output_chunks b ++ imports ++ supers ++ reverse ++ beans
    /\ Forall (fun c => exists imp, chunk_kind c = IMPORT imp) imports
    /\ Forall (fun c => chunk_kind c = EXTENDS_IMPLEMENTS) supers
    /\ Forall (fun c => chunk_kind c = REVERSE_DEPENDENCY) reverse
    /\ Forall (fun c => chunk_kind c = BEAN_CONFIGURATION) beans.
Proof.
  intros H. unfold process_target in H.
  destruct (negb (exists_ fs _)).
  { injection H as <-. exists [], [], [], []. now rewrite !app_nil_r. }
  destruct (read fs _) as [code|]; [|discriminate]. simpl in H.
  destruct (emit_imports fs repo _ b) as [b1|] eqn:H1; [|discriminate].
  apply emit_imports_appends in H1 as (l1 & Hl1 & Hk1). simpl in H.
  destruct (emit_all fs EXTENDS_IMPLEMENTS _ _ b1) as [b2|] eqn:H2;
    [|discriminate].
  apply emit_all_appends in H2 as (l2 & Hl2 & Hk2). simpl in H.
  match type of H with
  | (?rev ≫= _) = _ => destruct rev as [b3|] eqn:H3; [|discriminate]
  end.
  assert (Hrev : exists l3, output_chunks b3 = output_chunks b2 ++ l3
                   /\ Forall (fun c => chunk_kind c = REVERSE_DEPENDENCY) l3).
  { assert (Hnone : Some b2 = Some b3 ->
              exists l3, output_chunks b3 = output_chunks b2 ++ l3
                /\ Forall (fun c => chunk_kind c = REVERSE_DEPENDENCY) l3).
    { intros E. injection E as <-. exists []. now rewrite app_nil_r. }
    destruct (search PACKAGE_RE code), (search TYPE_RE code); simpl in H3;
      try (now apply Hnone).
    destruct (_ && _); [|now apply Hnone].
    destruct (Str.truthy _); [|now apply Hnone].
    eapply emit_all_appends. exact H3. }
  destruct Hrev as (l3 & Hl3 & Hk3). simpl in H.
  assert (Hbean : exists l4, output_chunks b' = output_chunks b3 ++ l4
                    /\ Forall (fun c => chunk_kind c = BEAN_CONFIGURATION) l4).
  { assert (Hnone : Some b3 = Some b' ->
              exists l4, output_chunks b' = output_chunks b3 ++ l4
                /\ Forall (fun c => chunk_kind c = BEAN_CONFIGURATION) l4).
    { intros E. injection E as <-. exists []. now rewrite app_nil_r. }
    destruct (search TYPE_RE code); simpl in H; [|now apply Hnone].
    destruct (Str.truthy _); [|now apply Hnone].
    eapply emit_all_appends. exact H. }
  destruct Hbean as (l4 & Hl4 & Hk4).
  exists l1, l2, l3, l4.
  rewrite Hl4, Hl3, Hl2, Hl1, <- !app_assoc. auto.
Qed.

End CategoryOrder.

Lemma categories_in_order_witness :
  exists b' imports supers reverse beans,
    process_target (tree_fs bundle_repo) dedup_order "repo" 2 false None
      "src/main/java/p/B.java" empty_bundle = Some b'
    /\ output_chunks b' = imports ++ supers ++ reverse ++ beans
    /\ Forall (fun c => exists imp, chunk_kind c = IMPORT imp) imports
    /\ Forall (fun c => chunk_kind c = REVERSE_DEPENDENCY) reverse
    /\ map chunk_kind (output_chunks b')
       = [IMPORT "p.A"; REVERSE_DEPENDENCY; REVERSE_DEPENDENCY].
Proof.
  destruct (process_target (tree_fs bundle_repo) dedup_order "repo" 2 false
              None "src/main/java/p/B.java" empty_bundle) as [b'|] eqn:H;
    [|vm_compute in H; discriminate].
  destruct (categories_in_order _ _ _ _ _ _ _ _ _ H)
    as (l1 & l2 & l3 & l4 & Hl & H1 & _ & H3 & _).
  exists b', l1, l2, l3, l4. repeat split; auto.
  vm_compute in H. now injection H as <-.
Defined.

(** ** The public wrapper *)

Lemma prepare_context_outcome_effects (fs : FS) (order : SetOrder)
    (can_write : string -> bool) (repo_path : option string)
    (targets : list string) (output : string) (depth : Z) (tests : bool)
    (limit : option Z) (return_string : bool) (e : effect) :
  e ∈ snd (prepare_context_outcome fs order can_write repo_path targets output
             depth tests limit return_string) ->
  exists path text, e = Written path text.
Proof.
  unfold prepare_context_outcome.
  destruct (bundle_for _ _ _ _ _ _ _) as [b|]; simpl;
    [|intros H; now apply elem_of_nil in H].
  destruct return_string; simpl; [intros H; now apply elem_of_nil in H|].
  destruct (can_write output); simpl; [|intros H; now apply elem_of_nil in H].
  intros H. apply list_elem_of_singleton in H as ->. eauto.
Qed.

(** X18. [generate_java_context] removes a directory in one case only:
    a repository URL was given, the clone into a fresh temporary
    directory succeeded, the run that followed did not raise and
    [cleanup] is set; what it removes then is that temporary directory.
    A repository given as a local path is never removed, and after a run
    that raised the clone is left where it is. *)
Theorem cleanup_removes_only_the_clone (fs : FS) (order : SetOrder)
    (git : Git) (can_write : string -> bool) (repo repo_url : option string)
    (branch : string) (files : option (list string)) (output : string)
    (depth : Z) (tests : bool) (limit : option Z)
    (cleanup return_string : bool) (p : string) :
  let '(result, effects) :=
    generate_java_context fs order git can_write repo repo_url branch files
      output depth tests limit cleanup return_string in
  Removed p ∈ effects <->
  cleanup = true /\ is_Some result /\ Str.truthy p = true
  /\ exists url, nonempty repo_url = Some url
                 /\ clone_repo git url branch = Some p.
Proof.
  unfold generate_java_context.
  assert (Hnot : forall repo_path,
             Removed p ∉ snd (prepare_context_outcome fs order can_write
                                repo_path (default [] files) output depth
                                tests limit return_string)).
  { intros repo_path H.
    apply prepare_context_outcome_effects in H as (path & text & H).
    discriminate. }
  destruct (nonempty repo_url) as [url|].
  - destruct (clone_repo git url branch) as [tmp|] eqn:Hclone.
    2:{ split; [intros H; now apply elem_of_nil in H|].
        intros (_ & _ & _ & url' & Hu & Hc). congruence. }
    specialize (Hnot (Some tmp)).
    destruct (prepare_context_outcome _ _ _ _ _ _ _ _ _ _) as [[r|] effects];
      simpl in Hnot.
    + destruct cleanup; simpl.
      * destruct (Str.truthy tmp) eqn:Ht.
        -- rewrite elem_of_cons, elem_of_app, list_elem_of_singleton. split.
           ++ intros [H|[H|H]]; [discriminate | contradiction |].
              injection H as ->. repeat split; eauto.
           ++ intros (_ & _ & _ & url' & Hu & Hc).
              right. right. congruence.
        -- rewrite elem_of_cons. split.
           ++ intros [H|H]; [discriminate | contradiction].
           ++ intros (_ & _ & Hp & url' & Hu & Hc).
              assert (tmp = p) by congruence. congruence.
      * rewrite elem_of_cons. split.
        -- intros [H|H]; [discriminate | contradiction].
        -- intros (Hc & _). discriminate.
    + simpl. rewrite elem_of_cons. split.
      * intros [H|H]; [discriminate | contradiction].
      * intros (_ & [r Hr] & _). discriminate.
  - specialize (Hnot (nonempty repo)).
    destruct (prepare_context_outcome _ _ _ _ _ _ _ _ _ _) as [[r|] effects];
      simpl in Hnot.
    + assert (E : (if cleanup then nonempty None else None) = None)
        by (destruct cleanup; reflexivity).
      rewrite E. simpl. split; [contradiction|].
      intros (_ & _ & _ & url' & Hu & _). discriminate.
    + simpl. split; [contradiction|].
      intros (_ & _ & _ & url' & Hu & _). discriminate.
Qed.

(** A cloned repository is analysed and then removed; the same files
    given as a local path are analysed and left alone. *)
Example cleanup_after_clone :
  snd (generate_java_context (tree_fs bundle_repo) dedup_order sample_git
         (fun _ => true) None (Some "https://example.org/r.git") "main"
         (Some ["src/main/java/p/B.java"]) "context_full.txt" 1 false None
         true true)
  = [Cloned "https://example.org/r.git" "repo"; Removed "repo"]
  /\ snd (generate_java_context (tree_fs bundle_repo) dedup_order sample_git
            (fun _ => true) (Some "repo") None "main"
            (Some ["src/main/java/p/B.java"]) "context_full.txt" 1 false None
            true true)
     = [].
Proof. vm_compute. split; reflexivity. Qed.

(** ** Two more facts on the traversal *)

(** X19. At depth 1, the default, the traversal returns exactly the
    candidates of the first level: what the search finds for the
    target, cut to the limit when there is one. *)
Theorem depth_one_is_direct (fs : FS) (order : SetOrder) (repo : string)
    (tests : bool) (limit : option Z) (target f : string) :
  f ∈ recursive_reverse_dependencies fs order repo tests limit target 1
  <-> f ∈ apply_limit limit
            (find_reverse_dependencies fs order repo target tests).
Proof.
  destruct (traverse_total fs order repo tests limit target 1)
    as (res & st' & Ht & ->).
  unfold traverse in Ht.
  destruct (rrd_first_level fs order repo tests limit (S (Z.to_nat 1))
              target 1 fresh 1 res st') as [Hrec Hsub];
    [lia | apply not_elem_of_empty | exact Ht |].
  split; [|apply Hrec].
  intros Hf. destruct (Hsub f Hf) as [H|(g & fqn & k & _ & _ & Hk1 & Hk & _)];
    [exact H | lia].
Qed.

Lemma chain_tests_mono (fs : FS) (repo : string) (k : nat) (target f : string) :
  chain fs repo false k target f -> chain fs repo true k target f.
Proof.
  assert (Hm : forall t g, g ∈ reverse_matches fs repo t false ->
                           g ∈ reverse_matches fs repo t true).
  { intros t g Hg.
    apply (list_set_elem dedup_order) in Hg.
    apply (list_set_elem dedup_order).
    change (g ∈ find_reverse_dependencies fs dedup_order repo t false) in Hg.
    change (g ∈ find_reverse_dependencies fs dedup_order repo t true).
    apply found_iff_matching in Hg
      as (root & dirs & files & name & text & Hw & Hn & Hp & Hj & _ & Hr & Hmt).
    apply found_iff_matching.
    exists root, dirs, files, name, text. auto 10. }
  induction 1 as [target f Hf|k target g fqn f Hg Hq Hch IH].
  - apply chain_one. now apply Hm.
  - eapply chain_step; [apply Hm; exact Hg | exact Hq | exact IH].
Qed.

(** X20. Without a limit, opting in to test files only adds to the
    result of a traversal. *)
Theorem traversal_with_tests_only_adds (fs : FS) (order : SetOrder)
    (repo : string) (target : string) (depth : Z) (f : string) :
  f ∈ recursive_reverse_dependencies fs order repo false None target depth ->
  f ∈ recursive_reverse_dependencies fs order repo true None target depth.
Proof.
  intros Hf. apply reachable_iff_returned in Hf as (k & Hk1 & Hk & Hch).
  apply reachable_iff_returned. exists k. repeat split; auto.
  now apply chain_tests_mono.
Qed.

Lemma traversal_with_tests_only_adds_witness :
  "repo/src/main/java/p/B.java"
  ∈ recursive_reverse_dependencies (tree_fs chain_repo) dedup_order "repo"
      true None "p.A" 1.
Proof.
  apply traversal_with_tests_only_adds. vm_compute. find_elem.
Defined.

(** * Reads and calls that fail during the traversal *)

Section TraversalIOFacts.

Context (fs : FS) (order : SetOrder) (repo : string) (tests : bool)
        (limit : option Z) (reopen : string -> option string).

Lemma rrd_io_unfold frames target depth st cur :
  rrd_io fs order repo tests limit reopen (S frames) target depth st cur =
  if depth <=? 0 then (Some [], st)
  else if bool_decide ((target, cur) ∈ visited st) then (Some [], st)
  else
    let '(results, st') :=
      expand_files_io reopen
        (fun fqn s =>
           rrd_io fs order repo tests limit reopen frames fqn (depth - 1) s
             (cur + 1))
        (kept fs order repo tests limit target) []
        (mark (target, cur) st) in
    (Some (order results), st').
Proof. reflexivity. Qed.

(** An induction principle for the loop with failures. *)
Lemma expand_files_io_invariant (P : list string -> trav -> Prop)
    (call : string -> trav -> option (list string) * trav) :
  forall files results st,
    (forall f rs s, f ∈ files -> P rs s -> P (rs ++ [f]) s) ->
    (forall f fqn rs s sub s',
        f ∈ files -> reopen f ≫= fqn_of_code = Some fqn ->
        P rs s -> call fqn s = (Some sub, s') -> P (rs ++ sub) s') ->
    (forall f fqn rs s s',
        f ∈ files -> reopen f ≫= fqn_of_code = Some fqn ->
        P rs s -> call fqn s = (None, s') -> P rs s') ->
    P results st ->
    P (fst (expand_files_io reopen call files results st))
      (snd (expand_files_io reopen call files results st)).
Proof.
  induction files as [|f files IH]; intros results st Hrec Hcall Hraise HP.
  - exact HP.
  - assert (Hf : f ∈ f :: files) by (apply elem_of_cons; now left).
    assert (Hin : forall f0, f0 ∈ files -> f0 ∈ f :: files)
      by (intros f0 H0; apply elem_of_cons; now right).
    cbn [expand_files_io].
    destruct (reopen f ≫= fqn_of_code) as [fqn|] eqn:Hq.
    + destruct (call fqn st) as [[sub|] st1] eqn:Hc.
      * apply IH; eauto.
      * apply IH; eauto.
    + apply IH; eauto.
Qed.

(** Every candidate the loop goes through is recorded, whatever its read
    and its expansion do. *)
Lemma expand_files_io_records
    (call : string -> trav -> option (list string) * trav) :
  forall files results st f,
    f ∈ results \/ f ∈ files ->
    f ∈ fst (expand_files_io reopen call files results st).
Proof.
  induction files as [|g files IH]; intros results st f Hf.
  - destruct Hf as [Hf|Hf]; [exact Hf | now apply elem_of_nil in Hf].
  - assert (Hnext : forall sub, f ∈ (results ++ [g]) ++ sub \/ f ∈ files).
    { intros sub. destruct Hf as [Hf|Hf].
      - left. rewrite !elem_of_app. auto.
      - apply elem_of_cons in Hf as [->|Hf]; [|now right].
        left. rewrite !elem_of_app, list_elem_of_singleton. auto. }
    assert (Hnext0 : f ∈ results ++ [g] \/ f ∈ files).
    { specialize (Hnext []). now rewrite app_nil_r in Hnext. }
    cbn [expand_files_io].
    destruct (reopen g ≫= fqn_of_code) as [fqn|]; [|now apply IH].
    destruct (call fqn st) as [[sub|] st1]; apply IH; auto.
Qed.

Lemma rrd_io_visited_mono frames :
  forall target depth st cur,
    visited st
    ⊆ visited (snd (rrd_io fs order repo tests limit reopen frames target
                      depth st cur)).
Proof.
  induction frames as [|frames IH]; intros target depth st cur;
    [reflexivity|].
  rewrite rrd_io_unfold.
  destruct (depth <=? 0); [reflexivity|].
  destruct (bool_decide _); [reflexivity|].
  destruct (expand_files_io _ _ _ _ _) as [results st1] eqn:Hx. simpl.
  change st1 with (snd (results, st1)). rewrite <- Hx.
  apply (expand_files_io_invariant (fun _ s => visited st ⊆ visited s)).
  - auto.
  - intros g fqn rs s sub s' _ _ HP Hc.
    pose proof (IH fqn (depth - 1) s (cur + 1)) as Hm.
    rewrite Hc in Hm. simpl in Hm. etransitivity; eassumption.
  - intros g fqn rs s s' _ _ HP Hc.
    pose proof (IH fqn (depth - 1) s (cur + 1)) as Hm.
    rewrite Hc in Hm. simpl in Hm. etransitivity; eassumption.
  - simpl. apply union_subseteq_r.
Qed.

(** A call that the stack admits returns, and at a positive depth it
    leaves its pair in the visited set. *)
Lemma rrd_io_returns frames target depth st cur :
  exists results,
    fst (rrd_io fs order repo tests limit reopen (S frames) target depth st
           cur) = Some results.
Proof.
  rewrite rrd_io_unfold.
  destruct (depth <=? 0); [eauto|].
  destruct (bool_decide _); [eauto|].
  destruct (expand_files_io _ _ _ _ _) as [results st1]. simpl. eauto.
Qed.

Lemma rrd_io_marks frames target depth st cur :
  0 < depth ->
  (target, cur)
  ∈ visited (snd (rrd_io fs order repo tests limit reopen (S frames) target
                    depth st cur)).
Proof.
  intros Hd. rewrite rrd_io_unfold.
  destruct (Z.leb_spec depth 0); [lia|].
  destruct (bool_decide_reflect ((target, cur) ∈ visited st)) as [Hin|Hin];
    [exact Hin|].
  destruct (expand_files_io _ _ _ _ _) as [results st1] eqn:Hx. simpl.
  change st1 with (snd (results, st1)). rewrite <- Hx.
  apply (expand_files_io_invariant (fun _ s => (target, cur) ∈ visited s)).
  - auto.
  - intros g fqn rs s sub s' _ _ HP Hc.
    pose proof (rrd_io_visited_mono frames fqn (depth - 1) s (cur + 1)) as Hm.
    rewrite Hc in Hm. simpl in Hm. now apply Hm.
  - intros g fqn rs s s' _ _ HP Hc.
    pose proof (rrd_io_visited_mono frames fqn (depth - 1) s (cur + 1)) as Hm.
    rewrite Hc in Hm. simpl in Hm. now apply Hm.
  - simpl. apply elem_of_union. left. now apply elem_of_singleton.
Qed.

(** The types of the candidates whose read succeeds are in the visited
    set after the loop, when the nested calls are admitted and expand. *)
Lemma expand_files_io_marks frames depth cur :
  0 < depth ->
  forall files results st g q,
    g ∈ files -> reopen g ≫= fqn_of_code = Some q ->
    (q, cur)
    ∈ visited (snd (expand_files_io reopen
                      (fun fqn s =>
                         rrd_io fs order repo tests limit reopen (S frames)
                           fqn depth s cur)
                      files results st)).
Proof.
  intros Hd. induction files as [|f files IH]; intros results st g q Hg Hq.
  - now apply elem_of_nil in Hg.
  - cbn [expand_files_io]. apply elem_of_cons in Hg as [->|Hg].
    + rewrite Hq.
      pose proof (rrd_io_marks frames q depth st cur Hd) as Hm.
      destruct (rrd_io _ _ _ _ _ _ _ _ _ _ _) as [[sub|] st1]; simpl in Hm.
      * match goal with
        | |- _ ∈ visited (snd (expand_files_io _ ?c ?fl ?rs ?s)) =>
            apply (expand_files_io_invariant
                     (fun _ s' => (q, cur) ∈ visited s') c fl rs s)
        end; auto.
        -- intros f0 fqn rs s sub' s' _ _ HP Hc.
           pose proof (rrd_io_visited_mono (S frames) fqn depth s cur) as Hv.
           rewrite Hc in Hv. now apply Hv.
        -- intros f0 fqn rs s s' _ _ HP Hc.
           pose proof (rrd_io_visited_mono (S frames) fqn depth s cur) as Hv.
           rewrite Hc in Hv. now apply Hv.
      * match goal with
        | |- _ ∈ visited (snd (expand_files_io _ ?c ?fl ?rs ?s)) =>
            apply (expand_files_io_invariant
                     (fun _ s' => (q, cur) ∈ visited s') c fl rs s)
        end; auto.
        -- intros f0 fqn rs s sub' s' _ _ HP Hc.
           pose proof (rrd_io_visited_mono (S frames) fqn depth s cur) as Hv.
           rewrite Hc in Hv. now apply Hv.
        -- intros f0 fqn rs s s' _ _ HP Hc.
           pose proof (rrd_io_visited_mono (S frames) fqn depth s cur) as Hv.
           rewrite Hc in Hv. now apply Hv.
    + destruct (reopen f ≫= fqn_of_code) as [fqn|];
        [|exact (IH _ _ g q Hg Hq)].
      destruct (rrd_io _ _ _ _ _ _ _ _ _ _ _) as [[sub|] st1];
        exact (IH _ _ g q Hg Hq).
Qed.

(** Every path of a result was found by a search, which read it. *)
Lemma rrd_io_found frames :
  forall target depth st cur results f,
    fst (rrd_io fs order repo tests limit reopen frames target depth st cur)
    = Some results ->
    f ∈ results ->
    exists q, f ∈ find_reverse_dependencies fs order repo q tests.
Proof.
  induction frames as [|frames IH]; intros target depth st cur results f H Hf;
    [discriminate|].
  rewrite rrd_io_unfold in H.
  destruct (depth <=? 0);
    [injection H as <-; now apply elem_of_nil in Hf|].
  destruct (bool_decide _);
    [injection H as <-; now apply elem_of_nil in Hf|].
  destruct (expand_files_io _ _ _ _ _) as [rs st1] eqn:Hx. simpl in H.
  injection H as <-. apply (proj1 (list_set_elem order _ _)) in Hf.
  revert f Hf. change rs with (fst (rs, st1)). rewrite <- Hx.
  apply (expand_files_io_invariant
           (fun rs _ => forall f, f ∈ rs ->
              exists q, f ∈ find_reverse_dependencies fs order repo q tests)).
  - intros g rs0 s Hg HP f Hf. apply elem_of_app in Hf as [Hf|Hf]; [auto|].
    apply list_elem_of_singleton in Hf as ->. exists target.
    unfold kept in Hg. now apply apply_limit_subseteq in Hg.
  - intros g fqn rs0 s sub s' _ _ HP Hc f Hf.
    apply elem_of_app in Hf as [Hf|Hf]; [auto|].
    eapply IH; [|exact Hf]. rewrite Hc. reflexivity.
  - auto.
  - intros f Hf. now apply elem_of_nil in Hf.
Qed.


End TraversalIOFacts.

(** C8, as the code has it. In the search a file whose read raises is
    passed over whole: the result holds exactly the readable files that
    pass the filters and match, so the files beside it are found as
    without it.  In the traversal every path returned was found, and so
    read, by a search; but a candidate is recorded before the guarded
    block, so that it stays in the result when the read of the loop or
    the nested call raises, and only its expansion is left out: the
    loop goes on with the remaining candidates, whose types are still
    expanded, and the traversal returns a list in every case. *)
Theorem read_failures_are_passed_over (fs : FS) (order : SetOrder)
    (repo : string) (tests : bool) (limit : option Z)
    (reopen : string -> option string) (frames : nat) (target : string)
    (depth : Z) :
  (forall q f,
      f ∈ find_reverse_dependencies fs order repo q tests <->
      exists root dirs files name text,
        (root, dirs, files) ∈ walk fs repo /\ name ∈ files
        /\ f = os_path_join root name
        /\ Str.endswith ".java" name = true
        /\ (tests = true \/ search TEST_RE name = None)
        /\ read fs f = Some text
        /\ is_Some (search (combined_re q (base_name_of q)) text))
  /\ (exists results st',
        traverse_io fs order repo tests limit reopen (S frames) target depth
        = (Some results, st')
        /\ (forall f, f ∈ results ->
              exists q text,
                f ∈ find_reverse_dependencies fs order repo q tests
                /\ read fs f = Some text)
        /\ (0 < depth ->
            forall f, f ∈ kept fs order repo tests limit target ->
                      f ∈ results)
        /\ (1 < depth -> (1 <= frames)%nat ->
            forall g q,
              g ∈ kept fs order repo tests limit target ->
              reopen g ≫= fqn_of_code = Some q ->
              (q, 2) ∈ visited st'))
  /\ (forall call f files results st,
        reopen f = None ->
        expand_files_io reopen call (f :: files) results st
        = expand_files_io reopen call files (results ++ [f]) st)
  /\ (forall call f fqn files results st st1,
        reopen f ≫= fqn_of_code = Some fqn ->
        call fqn st = (None, st1) ->
        expand_files_io reopen call (f :: files) results st
        = expand_files_io reopen call files (results ++ [f]) st1).
Proof.
  split; [intros q f; apply found_iff_matching|].
  split.
  - destruct (rrd_io_returns fs order repo tests limit reopen frames target
                depth fresh 1) as [results Hr].
    destruct (traverse_io fs order repo tests limit reopen (S frames) target
                depth) as [res st'] eqn:Ht.
    unfold traverse_io in Ht. rewrite Ht in Hr. simpl in Hr. subst res.
    exists results, st'. split; [reflexivity|].
    split; [|split].
    + intros f Hf.
      destruct (rrd_io_found fs order repo tests limit reopen (S frames)
                  target depth fresh 1 results f) as [q Hq];
        [now rewrite Ht | exact Hf |].
      pose proof Hq as Hq'. apply found_iff_matching in Hq'
        as (root & dirs & files & name & text & _ & _ & _ & _ & _ & Hread & _).
      eauto.
    + intros Hd f Hf. rewrite rrd_io_unfold in Ht.
      destruct (Z.leb_spec depth 0); [lia|].
      rewrite bool_decide_eq_false_2 in Ht by apply not_elem_of_empty.
      destruct (expand_files_io _ _ _ _ _) as [rs st1] eqn:Hx.
      injection Ht as <- <-. apply (list_set_elem order).
      change rs with (fst (rs, st1)). rewrite <- Hx.
      apply expand_files_io_records. now right.
    + intros Hd Hfr g q Hg Hq. rewrite rrd_io_unfold in Ht.
      destruct (Z.leb_spec depth 0); [lia|].
      rewrite bool_decide_eq_false_2 in Ht by apply not_elem_of_empty.
      destruct (expand_files_io _ _ _ _ _) as [rs st1] eqn:Hx.
      injection Ht as <- <-.
      change st1 with (snd (rs, st1)). rewrite <- Hx.
      destruct frames as [|frames']; [lia|].
      assert (Hd1 : 0 < depth - 1) by lia.
      exact (expand_files_io_marks fs order repo tests limit reopen frames'
               (depth - 1) (1 + 1) Hd1 _ _ _ g q Hg Hq).
  - split.
    + intros call f files results st Hf. cbn [expand_files_io].
      now rewrite Hf.
    + intros call f fqn files results st st1 Hq Hc. cbn [expand_files_io].
      now rewrite Hq, Hc.
Qed.

(** C8 as stated fails: [B.java] refers to [A] and is read by the
    search; when its read in the loop of the traversal then raises, the
    path is in the returned list all the same, and what it would have
    led to, [C.java], is not. *)
Lemma failed_read_counterexample :
  reopen_without_B "repo/src/main/java/p/B.java" = None
  /\ traverse_io (tree_fs chain_repo) dedup_order "repo" false None
       reopen_without_B 5 "p.A" 2
     = (Some ["repo/src/main/java/p/B.java"],
        snd (traverse_io (tree_fs chain_repo) dedup_order "repo" false None
               reopen_without_B 5 "p.A" 2))
  /\ ~ failed_reads_contribute_nothing (tree_fs chain_repo) dedup_order
         "repo" false None reopen_without_B 5 "p.A" 2.
Proof.
  assert (Hrun : fst (traverse_io (tree_fs chain_repo) dedup_order "repo"
                        false None reopen_without_B 5 "p.A" 2)
                 = Some ["repo/src/main/java/p/B.java"])
    by (vm_compute; reflexivity).
  split; [reflexivity|]. split.
  - rewrite <- Hrun. now destruct (traverse_io _ _ _ _ _ _ _ _ _).
  - intros H.
    destruct (traverse_io (tree_fs chain_repo) dedup_order "repo" false None
                reopen_without_B 5 "p.A" 2) as [res st'] eqn:Ht.
    simpl in Hrun. subst res.
    apply (H _ _ eq_refl "repo/src/main/java/p/B.java"); [reflexivity|].
    find_elem.
Qed.


